(** * Verification of the rule-based BMS point-name pipeline (rhasan/bms-nlp)

    Shallow embedding of
    - [src/bms/tokenizer.py]               : [split_alpha_num], [tokenize]
    - [src/bms/label_point_tokens.py]      : the regex tables, [label_token],
                                             [categories_to_bio], [build_structured],
                                             [annotate_record]
    - [src/bms/generate_bms_vocab.py]      : the statistics loop and the
                                             candidate cascade of [extract_vocab].

    Modelling conventions.
    - A Python [str] is a [list ascii]: a string of Latin-1 characters (code
      points 0-255).  Python's per-character predicates ([str.isspace],
      [str.isdigit], [str.isalpha], [str.isupper], the regex class [\d]) are
      modelled exactly on these code points.  [str.upper] is modelled on the
      ASCII letters only: on Latin-1, Python also upper-cases \xe0-\xfe,
      maps \xb5 and \xff outside Latin-1 and \xdf to "SS"; properties whose
      truth depends on how such letters are upper-cased assume ASCII input.
    - A Python dict / Counter is an association list in insertion order
      (Python dicts iterate in insertion order, and the equipment ranking
      breaks ties by that order); a Python set is a duplicate-free list.
    - A compiled regex of the form [^ piece piece ... $] is a list of
      quantified character classes; [re.match] with a trailing [$] accepts
      the whole string or the string minus one final newline. *)

From Stdlib Require Import List Ascii String Bool Arith Lia.
From Stdlib Require Import Sorted Permutation.
Import ListNotations.
Open Scope bool_scope.

(* ================================================================= *)
(** ** Characters and Python string predicates *)

Definition str := list ascii.

(** Python string literal helper. *)
Definition s2l (s : string) : str := list_ascii_of_string s.

Definition code (c : ascii) : nat := nat_of_ascii c.

Definition is_upper_letter (c : ascii) : bool := (65 <=? code c) && (code c <=? 90).
Definition is_lower_letter (c : ascii) : bool := (97 <=? code c) && (code c <=? 122).
(** [A-Za-z] *)
Definition is_letter (c : ascii) : bool := is_upper_letter c || is_lower_letter c.
(** [0-9], and [\d]: on Latin-1 the only Unicode decimal digits are 0-9. *)
Definition is_digit (c : ascii) : bool := (48 <=? code c) && (code c <=? 57).

(** Characters removed by [str.strip()] (Python's [str.isspace] on Latin-1:
    \t \n \v \f \r, the separators \x1c-\x1f, space, \x85 and \xa0). *)
Definition is_py_space (c : ascii) : bool :=
  ((9 <=? code c) && (code c <=? 13)) || ((28 <=? code c) && (code c <=? 32))
  || (code c =? 133) || (code c =? 160).

(** [str.upper] / [str.lower] on one ASCII character (see the conventions
    above for the other characters). *)
Definition char_upper (c : ascii) : ascii :=
  if is_lower_letter c then ascii_of_nat (code c - 32) else c.
Definition char_lower (c : ascii) : ascii :=
  if is_upper_letter c then ascii_of_nat (code c + 32) else c.

Definition upper (s : str) : str := map char_upper s.

Definition in_range (lo hi : nat) (c : ascii) : bool := (lo <=? code c) && (code c <=? hi).

(** The Latin-1 characters for which Python's [str.isalpha] holds:
    A-Z, a-z, \xaa, \xb5, \xba, \xc0-\xd6, \xd8-\xf6, \xf8-\xff. *)
Definition is_py_alpha (c : ascii) : bool :=
  is_letter c || (code c =? 170) || (code c =? 181) || (code c =? 186)
  || in_range 192 214 c || in_range 216 246 c || in_range 248 255 c.

(** The Latin-1 characters for which Python's [str.isdigit] holds: 0-9 and
    the superscripts \xb2, \xb3, \xb9. *)
Definition is_py_digit (c : ascii) : bool :=
  is_digit c || (code c =? 178) || (code c =? 179) || (code c =? 185).

(** Python's upper-case and lower-case characters of Latin-1 (the
    [Uppercase] and [Lowercase] properties that [str.isupper] reads). *)
Definition is_py_upper (c : ascii) : bool :=
  is_upper_letter c || in_range 192 214 c || in_range 216 222 c.
Definition is_py_lower (c : ascii) : bool :=
  is_lower_letter c || (code c =? 170) || (code c =? 181) || (code c =? 186)
  || in_range 223 246 c || in_range 248 255 c.

(** [str.isalpha]: non-empty and every character alphabetic. *)
Definition isalpha (s : str) : bool :=
  match s with [] => false | _ => forallb is_py_alpha s end.

(** [str.isdigit]: non-empty and every character a digit. *)
Definition isdigit (s : str) : bool :=
  match s with [] => false | _ => forallb is_py_digit s end.

(** [str.isupper]: at least one upper-case character and no lower-case one
    (Latin-1 has no title-case character). *)
Definition isupper (s : str) : bool :=
  existsb is_py_upper s && negb (existsb is_py_lower s).

Definition str_eqb (a b : str) : bool :=
  if list_eq_dec ascii_dec a b then true else false.

(** [x in xs] for a Python list or set of strings. *)
Definition mem (x : str) (xs : list str) : bool := existsb (str_eqb x) xs.

(** [s.startswith(p)] *)
Fixpoint startswith (s p : str) : bool :=
  match p, s with
  | [], _ => true
  | c :: p', d :: s' => Ascii.eqb c d && startswith s' p'
  | _ :: _, [] => false
  end.

(** [s.endswith(p)] *)
Definition endswith (s p : str) : bool := startswith (rev s) (rev p).

(** [p in s] (substring test) *)
Fixpoint contains (s p : str) : bool :=
  match s with
  | [] => startswith [] p
  | _ :: s' => startswith s p || contains s' p
  end.

(** [s.strip()] is non-empty *)
Definition nonblank (s : str) : bool := existsb (fun c => negb (is_py_space c)) s.

(* ================================================================= *)
(** ** Tokenizer ([src/bms/tokenizer.py]) *)

(** [DELIM_RE = re.compile(r"[ _\.\-\/:]+")] *)
Definition is_delim (c : ascii) : bool :=
  existsb (Ascii.eqb c) [" "%char; "_"%char; "."%char; "-"%char; "/"%char; ":"%char].

(** [DELIM_RE.split(label)]: the fragments between maximal runs of
    separators, empty fragments included (at the ends).  [cur] is the
    current fragment reversed, [in_run] says the previous character was a
    separator. *)
Fixpoint delim_split_aux (cur : str) (in_run : bool) (s : str) : list str :=
  match s with
  | [] => [rev cur]
  | c :: s' =>
      if is_delim c then
        if in_run then delim_split_aux cur true s'
        else rev cur :: delim_split_aux [] true s'
      else delim_split_aux (c :: cur) false s'
  end.

Definition delim_split (s : str) : list str := delim_split_aux [] false s.

(** Two characters belong to the same run of [[A-Za-z]+] or [\d+]. *)
Definition same_run_class (a c : ascii) : bool :=
  (is_letter a && is_letter c) || (is_digit a && is_digit c).

Definition is_alnum (c : ascii) : bool := is_letter c || is_digit c.

(** [re.findall(r"[A-Za-z]+|\d+|[^A-Za-z0-9]", token)]: left-to-right,
    maximal letter runs, maximal digit runs, and every other character on its
    own.  [run] is the run being matched, reversed. *)
Fixpoint findall_aux (run : str) (s : str) : list str :=
  match s with
  | [] => match run with [] => [] | _ => [rev run] end
  | c :: s' =>
      match run with
      | [] =>
          if is_alnum c then findall_aux [c] s' else [c] :: findall_aux [] s'
      | r :: _ =>
          if same_run_class r c then findall_aux (c :: run) s'
          else rev run ::
                 (if is_alnum c then findall_aux [c] s' else [c] :: findall_aux [] s')
      end
  end.

Definition findall_alpha_num (s : str) : list str := findall_aux [] s.

(** [split_alpha_num] *)
Definition split_alpha_num (token : str) : list str :=
  filter nonblank (findall_alpha_num token).

(** [tokenize] *)
Definition tokenize (label : str) : list str :=
  let rough := filter nonblank (delim_split label) in
  flat_map split_alpha_num rough.

(* ================================================================= *)
(** ** Regular expressions of [label_point_tokens.py] *)

(** A character class of the patterns: a literal, [\d], or a range. *)
Inductive cls : Type :=
| CLit (a : ascii)
| CDigit
| CRange (lo hi : ascii).

Definition cls_match_cs (k : cls) (c : ascii) : bool :=
  match k with
  | CLit a => Ascii.eqb c a
  | CDigit => is_digit c
  | CRange lo hi => (code lo <=? code c) && (code c <=? code hi)
  end.

(** With [re.I] a character also matches when its other case does. *)
Definition cls_match (icase : bool) (k : cls) (c : ascii) : bool :=
  cls_match_cs k c
  || (icase && (cls_match_cs k (char_lower c) || cls_match_cs k (char_upper c))).

(** A quantified class [k{lo,hi}]; [hi = None] is unbounded ([+], [*]). *)
Record piece := Piece { p_cls : cls; p_lo : nat; p_hi : option nat }.

Record pattern := Pattern { pat_pieces : list piece; pat_icase : bool }.

(** The concatenation [ps] matches all of [s]: the first piece consumes
    between [lo] and [hi] characters of its class, the rest matches the
    remainder. *)
Fixpoint match_pieces (ic : bool) (ps : list piece) (s : str) : bool :=
  match ps with
  | [] => match s with [] => true | _ => false end
  | Piece k lo hi :: ps' =>
      let ub := match hi with Some h => Nat.min h (List.length s) | None => List.length s end in
      existsb (fun n => forallb (cls_match ic k) (firstn n s)
                        && match_pieces ic ps' (skipn n s))
              (seq lo (S ub - lo))
  end.

(** [p.match(token)] for a pattern [^...$]: [$] matches at the end or just
    before a final newline. *)
Definition re_match (p : pattern) (s : str) : bool :=
  match_pieces (pat_icase p) (pat_pieces p) s
  || (match rev s with
      | c :: _ => Ascii.eqb c "010"%char
                  && match_pieces (pat_icase p) (pat_pieces p) (removelast s)
      | [] => false
      end).

Definition one (k : cls) : piece := Piece k 1 (Some 1).
Definition opt (k : cls) : piece := Piece k 0 (Some 1).
Definition plus (k : cls) : piece := Piece k 1 None.
Definition AZ : cls := CRange "A"%char "Z"%char.

(** [FLOOR_PATTERNS] *)
Definition FLOOR_PATTERNS : list pattern :=
  [ (* r"^FL?\d+$", re.I *)
    Pattern [one (CLit "F"); opt (CLit "L"); plus CDigit] true;
    (* r"^Floor$", re.I *)
    Pattern [one (CLit "F"); one (CLit "l"); one (CLit "o"); one (CLit "o");
             one (CLit "r")] true ].

(** [ROOM_PATTERNS] *)
Definition ROOM_PATTERNS : list pattern :=
  [ (* r"^RM\d+[A-Z]?$", re.I *)
    Pattern [one (CLit "R"); one (CLit "M"); plus CDigit; opt AZ] true;
    (* r"^\d{3,4}[A-Z]?$", re.I *)
    Pattern [Piece CDigit 3 (Some 4); opt AZ] true;
    (* r"^\d[A-Z]{1,3}\d{1,3}$", re.I *)
    Pattern [one CDigit; Piece AZ 1 (Some 3); Piece CDigit 1 (Some 3)] true ].

(** [EQUIP_ID_PATTERNS] (case-sensitive) *)
Definition EQUIP_ID_PATTERNS : list pattern :=
  [ (* r"^\d+$" *)
    Pattern [plus CDigit] false;
    (* r"^[A-Z]?\d{2,3}[A-Z]?$" *)
    Pattern [opt AZ; Piece CDigit 2 (Some 3); opt AZ] false ].

(** [BUILDING_HINT_PATTERNS] *)
Definition BUILDING_HINT_PATTERNS : list pattern :=
  [ (* r"^BLDG\d+$", re.I *)
    Pattern [one (CLit "B"); one (CLit "L"); one (CLit "D"); one (CLit "G");
             plus CDigit] true ].

(** [any(p.match(token) for p in pats)] *)
Definition any_match (pats : list pattern) (token : str) : bool :=
  existsb (fun p => re_match p token) pats.

(* ================================================================= *)
(** ** Token labeler *)

Inductive category : Type :=
| BLDG | FLOOR | ZONE | EQUIP | EQUIP_ID
| SUBCOMP | POINT_FUNC | IO_TYPE | VENDOR_TAG | MISC.

(** The strings the Python code uses for the categories. *)
Definition category_name (c : category) : str :=
  s2l match c with
  | BLDG => "BLDG" | FLOOR => "FLOOR" | ZONE => "ZONE" | EQUIP => "EQUIP"
  | EQUIP_ID => "EQUIP_ID" | SUBCOMP => "SUBCOMP" | POINT_FUNC => "POINT_FUNC"
  | IO_TYPE => "IO_TYPE" | VENDOR_TAG => "VENDOR_TAG" | MISC => "MISC"
  end.

(** The dict returned by [load_vocabs]. *)
Record vocabs := Vocabs {
  v_EQUIP : list str;
  v_SUBCOMP : list str;
  v_POINT_FUNC : list str;
  v_IO_TYPE : list str;
  v_VENDOR_TAG : list str }.

(** [label_token] *)
Definition label_token (token : str) (vs : vocabs) : category :=
  let t := upper token in
  if mem t (v_VENDOR_TAG vs) then VENDOR_TAG
  else if mem t (v_IO_TYPE vs) then IO_TYPE
  else if mem t (v_EQUIP vs) then EQUIP
  else if mem t (v_SUBCOMP vs) then SUBCOMP
  else if mem t (v_POINT_FUNC vs) then POINT_FUNC
  else if any_match FLOOR_PATTERNS token then FLOOR
  else if any_match ROOM_PATTERNS token then ZONE
  else if any_match EQUIP_ID_PATTERNS token then EQUIP_ID
  else if any_match BUILDING_HINT_PATTERNS token then BLDG
  else MISC.

(** [weak_label_tokens] *)
Definition weak_label_tokens (tokens : list str) (vs : vocabs) : list category :=
  map (fun tok => label_token tok vs) tokens.

(* ================================================================= *)
(** ** BIO encoder *)

(** [categories_to_bio]: a category is a string or [None]. *)
Fixpoint bio_aux (prev_cat : option str) (cats : list (option str)) : list str :=
  match cats with
  | [] => []
  | cat :: rest =>
      match cat with
      | None => s2l "O" :: bio_aux None rest
      | Some c =>
          if str_eqb c (s2l "MISC") then s2l "O" :: bio_aux None rest
          else (if match prev_cat with
                   | Some p => negb (str_eqb c p)
                   | None => true
                   end
                then s2l "B-" ++ c else s2l "I-" ++ c)
               :: bio_aux (Some c) rest
      end
  end.

Definition categories_to_bio (cats : list (option str)) : list str :=
  bio_aux None cats.

(* ================================================================= *)
(** ** Structured aggregator *)

Record structured := Structured {
  bldg : option str; floor : option str; zone : option str;
  equip : option str; equip_id : option str; subcomp : option str;
  point_func : option str; io_type : option str; vendor : option str }.

(** Loop state of [build_structured]. *)
Record agg_state := AggState {
  a_bldg : option str; a_floor : option str; a_zone_tokens : list str;
  a_equip : option str; a_equip_id : option str; a_subcomp : option str;
  a_point_func : option str; a_io_type : option str; a_vendor : option str }.

Definition agg_init : agg_state :=
  AggState None None [] None None None None None None.

Definition is_none {A} (o : option A) : bool :=
  match o with None => true | Some _ => false end.

(** One iteration of the [if/elif] chain. *)
Definition agg_step (st : agg_state) (tc : str * str) : agg_state :=
  let (tok, c) := tc in
  let '(AggState b f z e ei sc pf io v) := st in
  if str_eqb c (s2l "BLDG") && is_none b then AggState (Some tok) f z e ei sc pf io v
  else if str_eqb c (s2l "FLOOR") && is_none f then AggState b (Some tok) z e ei sc pf io v
  else if str_eqb c (s2l "ZONE") then AggState b f (z ++ [tok]) e ei sc pf io v
  else if str_eqb c (s2l "EQUIP") && is_none e then AggState b f z (Some tok) ei sc pf io v
  else if str_eqb c (s2l "EQUIP_ID") && is_none ei then AggState b f z e (Some tok) sc pf io v
  else if str_eqb c (s2l "SUBCOMP") then AggState b f z e ei (Some tok) pf io v
  else if str_eqb c (s2l "POINT_FUNC") then AggState b f z e ei sc (Some tok) io v
  else if str_eqb c (s2l "IO_TYPE") then AggState b f z e ei sc pf (Some tok) v
  else if str_eqb c (s2l "VENDOR_TAG") then AggState b f z e ei sc pf io (Some tok)
  else st.

(** [" ".join(xs)] *)
Fixpoint join_space (xs : list str) : str :=
  match xs with
  | [] => []
  | [x] => x
  | x :: xs' => x ++ [" "%char] ++ join_space xs'
  end.

(** [build_structured] *)
Definition build_structured (tokens cats : list str) : structured :=
  let st := fold_left agg_step (combine tokens cats) agg_init in
  Structured (a_bldg st) (a_floor st)
    (match a_zone_tokens st with [] => None | zs => Some (join_space zs) end)
    (a_equip st) (a_equip_id st) (a_subcomp st) (a_point_func st)
    (a_io_type st) (a_vendor st).

(* ================================================================= *)
(** ** [annotate_record] *)

Record raw_record := RawRecord {
  point_label : str;
  building_id : str }.

Record annotated := Annotated {
  an_point_label : str;
  an_tokens : list str;
  an_token_labels : list category;
  an_bio_tags : list str;
  an_building_id : str;
  an_structured : structured }.

Definition annotate_record (r : raw_record) (vs : vocabs) : annotated :=
  let tokens := tokenize (point_label r) in
  let token_labels := weak_label_tokens tokens vs in
  let names := map category_name token_labels in
  Annotated (point_label r) tokens token_labels
    (categories_to_bio (map Some names)) (building_id r)
    (build_structured tokens names).

(* ================================================================= *)
(** ** Vocabulary generation ([src/bms/generate_bms_vocab.py]) *)

Definition strs (xs : list string) : list str := map s2l xs.

Definition MIN_GLOBAL_FREQ : nat := 10.
Definition MIN_BUILDINGS : nat := 2.
Definition MIN_EQUIP_NUMID_BIGRAM : nat := 5.

Definition SEED_EQUIP : list str :=
  strs ["AHU"; "VAV"; "FCU"; "CRAC"; "MAU"; "EF"; "SF"; "HWP"; "PUMP"; "CHW";
        "HHW"; "HX"; "FAN"; "FANCOIL"]%string.
Definition SEED_SUBCOMP : list str :=
  strs ["SAT"; "DAT"; "RAT"; "MAT"; "OAT"; "TEMP"; "FLOW"; "POS"; "SPEED";
        "PRESS"; "PRESSURE"; "STATIC"]%string.
Definition SEED_POINT_FUNC : list str :=
  strs ["CMD"; "COMD"; "STATUS"; "START"; "STOP"; "RUN"; "ENABLE"; "ALARM";
        "ALM"; "MODE"; "PROOF"; "DAY"; "NIGHT"]%string.
Definition KNOWN_IO : list str :=
  strs ["AI"; "AO"; "DI"; "DO"; "AV"; "BV"; "UI"; "UO"]%string.
Definition KNOWN_VENDOR_HINTS : list str :=
  strs ["JCI"; "SIEMENS"; "BAC"; "BACNET"; "HONEYWELL"; "TRANE"; "N2";
        "SCHNEIDER"]%string.
Definition EQUIP_STOPWORDS : list str :=
  strs ["AIR"; "FLOW"; "SUP"; "SUPPLY"; "RET"; "RETURN"; "ZONE"; "HOT"; "COLD";
        "HEAT"; "COOL"; "TEMP"; "MODE"; "FILTER"; "ALARM"; "ALM"; "RUN";
        "START"; "STOP"; "DAY"; "NIGHT"]%string.
Definition EQUIP_BLACKLIST : list str := [].

(** *** Python dicts as association lists in insertion order *)

Definition counter := list (str * nat).

(** [c[k]] for a Counter, [c.get(k, 0)] *)
Fixpoint counter_get (c : counter) (k : str) : nat :=
  match c with
  | [] => 0
  | (k', v) :: c' => if str_eqb k k' then v else counter_get c' k
  end.

(** [c[k] += 1]: a new key goes to the end. *)
Fixpoint counter_incr (c : counter) (k : str) : counter :=
  match c with
  | [] => [(k, 1)]
  | (k', v) :: c' => if str_eqb k k' then (k', S v) :: c' else (k', v) :: counter_incr c' k
  end.

(** [c.update(xs)] *)
Definition counter_update (c : counter) (xs : list str) : counter :=
  fold_left counter_incr xs c.

(** A [defaultdict(set)] from tokens to building ids. *)
Definition set_map := list (str * list str).

Fixpoint set_map_get (m : set_map) (k : str) : list str :=
  match m with
  | [] => []
  | (k', v) :: m' => if str_eqb k k' then v else set_map_get m' k
  end.

(** [set.add(x)] *)
Definition set_add (x : str) (xs : list str) : list str :=
  if mem x xs then xs else xs ++ [x].

(** [m[k].add(x)] *)
Fixpoint set_map_add (m : set_map) (k x : str) : set_map :=
  match m with
  | [] => [(k, [x])]
  | (k', v) :: m' => if str_eqb k k' then (k', set_add x v) :: m' else (k', v) :: set_map_add m' k x
  end.

(** [set(xs)]; the iteration order of a Python set is unspecified and is only
    used below to fill a dict that is read by key. *)
Definition py_set (xs : list str) : list str := nodup (list_eq_dec ascii_dec) xs.

(** [per_building_counter[b].update(xs)] *)
Fixpoint per_building_update (m : list (str * counter)) (b : str) (xs : list str)
  : list (str * counter) :=
  match m with
  | [] => [(b, counter_update [] xs)]
  | (b', c) :: m' =>
      if str_eqb b b' then (b', counter_update c xs) :: m'
      else (b', c) :: per_building_update m' b xs
  end.

(** *** Corpus statistics (the reading loop of [extract_vocab]) *)

Record corpus_stats := CorpusStats {
  token_counter : counter;
  token_buildings : set_map;
  token_numid_bigram : counter;
  per_building_counter : list (str * counter) }.

Definition stats_init : corpus_stats := CorpusStats [] [] [] [].

(** [for i in range(len(toks) - 1)]: the pairs [(toks[i], toks[i+1])]. *)
Definition adjacent_pairs (toks : list str) : list (str * str) :=
  combine toks (tl toks).

Definition numid_step (c : counter) (pr : str * str) : counter :=
  let (t_curr, t_next) := pr in
  if isdigit t_next then counter_incr c (upper t_curr) else c.

(** One JSONL record. *)
Definition stats_step (st : corpus_stats) (r : raw_record) : corpus_stats :=
  let lbl := point_label r in
  let b := building_id r in
  let toks := tokenize lbl in
  match toks with
  | [] => st
  | _ =>
      let toks_upper := map upper toks in
      CorpusStats
        (counter_update (token_counter st) toks_upper)
        (fold_left (fun m t => set_map_add m t b) (py_set toks_upper) (token_buildings st))
        (fold_left numid_step (adjacent_pairs toks) (token_numid_bigram st))
        (per_building_update (per_building_counter st) b toks_upper)
  end.

Definition collect_stats (corpus : list raw_record) : corpus_stats :=
  fold_left stats_step corpus stats_init.

(** *** Category heuristics *)

Definition is_io_type (tok : str) : bool := mem tok KNOWN_IO.

Definition is_vendor (tok : str) : bool :=
  if mem tok KNOWN_VENDOR_HINTS then true
  else if endswith tok (s2l "NET") && (List.length tok <=? 8) then true
  else false.

Definition passes_global_thresholds (tok : str) (st : corpus_stats) : bool :=
  let freq := counter_get (token_counter st) tok in
  let building_support := List.length (set_map_get (token_buildings st) tok) in
  (MIN_GLOBAL_FREQ <=? freq) && (MIN_BUILDINGS <=? building_support).

Definition likely_equip (tok : str) (st : corpus_stats) : bool :=
  let t := tok in
  if mem t EQUIP_BLACKLIST then false
  else if mem t SEED_EQUIP && (0 <? counter_get (token_counter st) t) then true
  else if negb (passes_global_thresholds t st) then false
  else if negb (isalpha t) then false
  else if negb (isupper t) then false
  else if negb ((2 <=? List.length t) && (List.length t <=? 6)) then false
  else if mem t EQUIP_STOPWORDS then false
  else
    let numid_support := counter_get (token_numid_bigram st) t in
    if MIN_EQUIP_NUMID_BIGRAM <=? numid_support then true
    else true.

Definition measurement_keywords : list str :=
  strs ["TEMP"; "FLOW"; "PRESS"; "HUM"; "SPEED"; "POS"; "LEVEL"; "STATIC"]%string.

Definition likely_subcomponent (tok : str) (st : corpus_stats) : bool :=
  let t := tok in
  if mem t SEED_SUBCOMP && (0 <? counter_get (token_counter st) t) then true
  else if negb (passes_global_thresholds t st) then false
  else if existsb (fun k => contains t k) measurement_keywords then true
  else if isupper t && (List.length t <=? 4) && endswith t (s2l "T") then true
  else false.

Definition fn_keywords : list str :=
  strs ["CMD"; "COMD"; "STAT"; "STATUS"; "START"; "STOP"; "ENABLE"; "ENBL";
        "ALARM"; "ALM"; "MODE"; "PROOF"; "RUN"]%string.

Definition likely_point_func (tok : str) (st : corpus_stats) : bool :=
  let t := tok in
  if mem t SEED_POINT_FUNC && (0 <? counter_get (token_counter st) t) then true
  else if negb (passes_global_thresholds t st) then false
  else if existsb (fun k => str_eqb t k || startswith t k) fn_keywords then true
  else if mem t (strs ["DAY"; "NIGHT"]%string) then true
  else false.

(** *** Candidate cascade and trimming *)

(** The stats dict stored with a candidate ([numid_bigrams] only for
    equipment; [stats.get("numid_bigrams", 0)] reads 0 otherwise). *)
Record cand_stats := CandStats { cs_freq : nat; cs_buildings : nat; cs_numid : nat }.

Record candidates := Candidates {
  io_vocab : list str;
  vendor_vocab_set : list str;
  pointfunc_candidates : list (str * cand_stats);
  subcomp_candidates : list (str * cand_stats);
  equip_candidates : list (str * cand_stats) }.

Definition cands_init : candidates := Candidates [] [] [] [] [].

(** [d[k] = v] *)
Fixpoint dict_set (d : list (str * cand_stats)) (k : str) (v : cand_stats)
  : list (str * cand_stats) :=
  match d with
  | [] => [(k, v)]
  | (k', v') :: d' => if str_eqb k k' then (k', v) :: d' else (k', v') :: dict_set d' k v
  end.

(** The bucket a token ends in: the [if ... continue] chain of the loop. *)
Inductive bucket := BIo | BVendor | BPointFunc | BSubcomp | BEquip.

Definition candidate_bucket (t : str) (st : corpus_stats) : option bucket :=
  if is_io_type t then Some BIo
  else if is_vendor t then Some BVendor
  else if likely_point_func t st then Some BPointFunc
  else if likely_subcomponent t st then Some BSubcomp
  else if likely_equip t st then Some BEquip
  else None.

(** Body of [for tok, freq in token_counter.items()]. *)
Definition collect_step (st : corpus_stats) (cs : candidates) (item : str * nat)
  : candidates :=
  let (t, freq) := item in
  let nb := List.length (set_map_get (token_buildings st) t) in
  let '(Candidates io ven pf sc eq) := cs in
  match candidate_bucket t st with
  | Some BIo => Candidates (set_add t io) ven pf sc eq
  | Some BVendor => Candidates io (set_add t ven) pf sc eq
  | Some BPointFunc => Candidates io ven (dict_set pf t (CandStats freq nb 0)) sc eq
  | Some BSubcomp => Candidates io ven pf (dict_set sc t (CandStats freq nb 0)) eq
  | Some BEquip =>
      Candidates io ven pf sc
        (dict_set eq t (CandStats freq nb (counter_get (token_numid_bigram st) t)))
  | None => cs
  end.

Definition collect_candidates (st : corpus_stats) : candidates :=
  fold_left (collect_step st) (token_counter st) cands_init.

Definition score_equip (s : cand_stats) : nat :=
  cs_freq s + 2 * cs_buildings s + 3 * cs_numid s.
Definition score_subcomp (s : cand_stats) : nat := cs_freq s + 2 * cs_buildings s.
Definition score_pointfunc (s : cand_stats) : nat := cs_freq s + cs_buildings s.

(** [sorted(items, key=score_equip, reverse=True)]: a stable sort, so equal
    scores keep the dict's insertion order.  [x] comes before every element
    of [l] in that order, so it goes in front of the first element whose
    score is not larger than its own. *)
Fixpoint insert_by_score (x : str * cand_stats) (l : list (str * cand_stats))
  : list (str * cand_stats) :=
  match l with
  | [] => [x]
  | y :: l' =>
      if score_equip (snd y) <=? score_equip (snd x) then x :: l
      else y :: insert_by_score x l'
  end.

Definition sort_by_score_desc (l : list (str * cand_stats)) : list (str * cand_stats) :=
  fold_right insert_by_score [] l.

(** Python's [str] ordering: lexicographic on code points. *)
Fixpoint str_leb (a b : str) : bool :=
  match a, b with
  | [], _ => true
  | _ :: _, [] => false
  | x :: a', y :: b' =>
      if code x <? code y then true
      else if code y <? code x then false
      else str_leb a' b'
  end.

Fixpoint insert_str (x : str) (l : list str) : list str :=
  match l with
  | [] => [x]
  | y :: l' => if str_leb x y then x :: l else y :: insert_str x l'
  end.

(** [sorted(xs)] *)
Definition sorted_strs (l : list str) : list str := fold_right insert_str [] l.

Definition MAX_EQUIP : nat := 150.
Definition MIN_SUBCOMP_SCORE : nat := 15.
Definition MIN_POINTFUNC_SCORE : nat := 5.

Record vocab_bundle := VocabBundle {
  frequency : counter;
  equip_vocab : list str;
  subcomp_vocab : list str;
  point_func_vocab : list str;
  io_type_vocab : list str;
  vendor_vocab : list str;
  num_tokens : nat;
  num_buildings : nat }.

(** [extract_vocab], with the JSONL file already parsed into records. *)
Definition extract_vocab (corpus : list raw_record) : vocab_bundle :=
  let st := collect_stats corpus in
  let cs := collect_candidates st in
  let sorted_equip := sort_by_score_desc (equip_candidates cs) in
  let equip_v := py_set (map fst (firstn MAX_EQUIP sorted_equip)) in
  let subcomp_v := py_set (map fst (filter (fun kv => MIN_SUBCOMP_SCORE <=? score_subcomp (snd kv))
                                           (subcomp_candidates cs))) in
  let point_func_v := py_set (map fst (filter (fun kv => MIN_POINTFUNC_SCORE <=? score_pointfunc (snd kv))
                                              (pointfunc_candidates cs))) in
  VocabBundle (token_counter st)
    (sorted_strs equip_v) (sorted_strs subcomp_v) (sorted_strs point_func_v)
    (sorted_strs (io_vocab cs)) (sorted_strs (vendor_vocab_set cs))
    (List.length (token_counter st)) (List.length (per_building_counter st)).

(* ================================================================= *)
(** * Auxiliary definitions used by the properties *)

Definition small_vocabs : vocabs :=
  Vocabs [s2l "AHU"] [s2l "SAT"; s2l "TEMP"] [s2l "CMD"; s2l "STATUS"]
         [s2l "AI"; s2l "DI"] [s2l "SIEMENS"].

Definition empty_vocabs : vocabs := Vocabs [] [] [] [] [].

Definition corpus12 : list raw_record :=
  map (fun i => RawRecord (s2l "SIEMENS_AHU-01.SAT_AI_CMD")
                          (if i <? 6 then s2l "B1" else s2l "B2")) (seq 0 12).

(** Every ASCII character, for facts checked by evaluation. *)
Definition all_ascii : list ascii := map ascii_of_nat (seq 0 256).

Definition not_delim (c : ascii) : bool := negb (is_delim c).

(** Characters the claim about "other" characters talks about. *)
Definition is_other (c : ascii) : bool :=
  negb (is_alnum c) && negb (is_delim c) && negb (is_py_space c).

(** A one-character token whose character satisfies [P]. *)
Definition single_with (P : ascii -> bool) (tok : str) : bool :=
  match tok with [c] => P c | _ => false end.

Definition sing (c : ascii) : str := [c].

(** The characters the claim C8 talks about: neither an ASCII letter, nor a
    digit, nor a separator. *)
Definition claimed_other (c : ascii) : bool := negb (is_alnum c) && negb (is_delim c).

(** The tokens the claim C6 counts as numeric: non-empty and made of the
    decimal digits 0-9 only. *)
Definition claimed_numeric (s : str) : bool :=
  match s with [] => false | _ => forallb is_digit s end.

Definition piece_ub (hi : option nat) (s : str) : nat :=
  match hi with Some h => Nat.min h (List.length s) | None => List.length s end.

(** The first token of category [cat] among the pairs. *)
Fixpoint first_tok (cat : str) (pairs : list (str * str)) : option str :=
  match pairs with
  | [] => None
  | (t, c) :: r => if str_eqb c cat then Some t else first_tok cat r
  end.

(** The last token of category [cat] among the pairs. *)
Definition last_tok (cat : str) (pairs : list (str * str)) : option str :=
  first_tok cat (rev pairs).

(** All tokens of category ZONE, in order. *)
Definition zone_toks (pairs : list (str * str)) : list str :=
  map fst (filter (fun p => str_eqb (snd p) (s2l "ZONE")) pairs).

Definition first_or (o o' : option str) : option str :=
  match o with Some x => Some x | None => o' end.

Definition last_or (o o' : option str) : option str :=
  match o' with Some x => Some x | None => o end.

Definition upd_first (o : option str) (cat c t : str) : option str :=
  match o with Some x => Some x | None => if str_eqb c cat then Some t else None end.

Definition upd_last (o : option str) (cat c t : str) : option str :=
  if str_eqb c cat then Some t else o.

(** A run in progress is all letters or all digits. *)
Definition run_ok (run : str) : bool := forallb is_letter run || forallb is_digit run.

(** A token is a letter run, a digit run, or a single character. *)
Definition homogeneous (p : str) : bool :=
  forallb is_letter p || forallb is_digit p || (List.length p =? 1).

(** The effective category: MISC and absent categories count as none. *)
Definition eff (c : option str) : option str :=
  match c with
  | None => None
  | Some s => if str_eqb s (s2l "MISC") then None else Some s
  end.

(** The tag the spec prescribes for category [c] after a token whose
    effective category is [prev]. *)
Definition bio_tag_spec (prev : option str) (c : option str) : str :=
  match eff c with
  | None => s2l "O"
  | Some x =>
      match prev with
      | Some p => if str_eqb x p then s2l "I-" ++ x else s2l "B-" ++ x
      | None => s2l "B-" ++ x
      end
  end.

(** Effective category of the token before position [i] ([None] at 0). *)
Definition prev_effective (cats : list (option str)) (i : nat) : option str :=
  match i with
  | 0 => None
  | S j => match nth_error cats j with Some c => eff c | None => None end
  end.

Definition count_O (tags : list str) : nat :=
  List.length (filter (fun t => str_eqb t (s2l "O")) tags).

(** Every collected token is a key of the token counter and sits in the
    bucket the cascade gives it. *)
Definition in_bucket (st : corpus_stats) (t : str) (b : bucket) : Prop :=
  In t (map fst (token_counter st)) /\ candidate_bucket t st = Some b.

Definition buckets_ok (st : corpus_stats) (cs : candidates) : Prop :=
  (forall t, In t (io_vocab cs) -> in_bucket st t BIo)
  /\ (forall t, In t (vendor_vocab_set cs) -> in_bucket st t BVendor)
  /\ (forall t, In t (map fst (pointfunc_candidates cs)) -> in_bucket st t BPointFunc)
  /\ (forall t, In t (map fst (subcomp_candidates cs)) -> in_bucket st t BSubcomp)
  /\ (forall t, In t (map fst (equip_candidates cs)) -> in_bucket st t BEquip).

(** Ten records labelled "VLV", five in each of two buildings: "VLV" is
    never followed by a number. *)
Definition corpus_vlv : list raw_record :=
  map (fun i => RawRecord (s2l "VLV") (if i <? 5 then s2l "B1" else s2l "B2")) (seq 0 10).

(** The case-folded tokens of one record. *)
Definition record_tokens_upper (r : raw_record) : list str :=
  map upper (tokenize (point_label r)).

(** Reading a BIO tag back: [O] is no category, [B-x] and [I-x] are [x]. *)
Definition bio_decode (t : str) : option str :=
  if str_eqb t (s2l "O") then None else Some (skipn 2 t).

(** The case-folded tokens of a whole corpus, record after record. *)
Definition corpus_tokens (corpus : list raw_record) : list str :=
  List.concat (map record_tokens_upper corpus).

Definition bucket_eqb (a b : bucket) : bool :=
  match a, b with
  | BIo, BIo | BVendor, BVendor | BPointFunc, BPointFunc
  | BSubcomp, BSubcomp | BEquip, BEquip => true
  | _, _ => false
  end.

Definition in_bucket_b (ob : option bucket) (b : bucket) : bool :=
  match ob with Some b' => bucket_eqb b' b | None => false end.

(** The candidate dict a bucket fills, and the set. *)
Definition cand_dict (b : bucket) (cs : candidates) : list (str * cand_stats) :=
  match b with
  | BPointFunc => pointfunc_candidates cs
  | BSubcomp => subcomp_candidates cs
  | BEquip => equip_candidates cs
  | _ => []
  end.

Definition cand_set (b : bucket) (cs : candidates) : list str :=
  match b with
  | BIo => io_vocab cs
  | BVendor => vendor_vocab_set cs
  | _ => []
  end.

Definition is_dict_bucket (b : bucket) : bool :=
  match b with BPointFunc | BSubcomp | BEquip => true | _ => false end.

(** The stats dict the loop stores for token [t] with count [f]. *)
Definition cand_entry (st : corpus_stats) (b : bucket) (t : str) (f : nat) : cand_stats :=
  CandStats f (List.length (set_map_get (token_buildings st) t))
    (match b with BEquip => counter_get (token_numid_bigram st) t | _ => 0 end).

(** [score_equip] of the stats dict stored for an equipment candidate. *)
Definition equip_score (st : corpus_stats) (t : str) : nat :=
  score_equip (cand_entry st BEquip t (counter_get (token_counter st) t)).

(** A record whose label yields at least one token. *)
Definition has_tokens (r : raw_record) : bool :=
  match tokenize (point_label r) with [] => false | _ => true end.

(** One label with 151 distinct three-letter equipment-like tokens
    ("QAA", "QAB", ...: never a seed, keyword, vendor or IO type), in ten
    records over two buildings. *)
Definition AZ_letters : list ascii := map ascii_of_nat (seq 65 26).

Definition q_tokens : list str :=
  firstn 151 (flat_map (fun a => map (fun b => ["Q"%char; a; b])
                                   (filter (fun b => negb (Ascii.eqb b "T"%char)) AZ_letters))
                       AZ_letters).

Fixpoint join_underscore (toks : list str) : str :=
  match toks with
  | [] => []
  | [t] => t
  | t :: ts => t ++ "_"%char :: join_underscore ts
  end.

Definition corpus_q : list raw_record :=
  map (fun i => RawRecord (join_underscore q_tokens) (if i <? 5 then s2l "B1" else s2l "B2"))
      (seq 0 10).

Definition corpus_static : list raw_record :=
  map (fun i => RawRecord (s2l "STATIC") (if i <? 5 then s2l "B1" else s2l "B2")) (seq 0 10).

(** The later tests of [likely_point_func] and [likely_subcomponent], after
    the seed test and the global thresholds. *)
Definition pf_keyword (t : str) : bool :=
  existsb (fun k => str_eqb t k || startswith t k) fn_keywords.
Definition day_night (t : str) : bool := mem t (strs ["DAY"; "NIGHT"]%string).
Definition measurement_like (t : str) : bool :=
  existsb (fun k => contains t k) measurement_keywords
  || (isupper t && (List.length t <=? 4) && endswith t (s2l "T")).

(* ================================================================= *)
(** * Properties *)

Example tokenize_ex1 :
  tokenize (s2l "AHU-03.SAT_AI") = map s2l ["AHU"; "03"; "SAT"; "AI"]%string.
Proof. reflexivity. Qed.
Example tokenize_ex2 :
  tokenize (s2l "ZONE.AHU01.RM3218:VLV1 COMD")
  = map s2l ["ZONE"; "AHU"; "01"; "RM"; "3218"; "VLV"; "1"; "COMD"]%string.
Proof. reflexivity. Qed.
Example tokenize_ex3 :
  tokenize (s2l "--a%%b 7") = map s2l ["a"; "%"; "%"; "b"; "7"]%string.
Proof. reflexivity. Qed.

Example label_token_ex :
  map (fun t => label_token (s2l t) empty_vocabs)
    ["FL03"; "F3"; "Floor"; "RM1203E"; "2130"; "2SE21"; "03"; "BLDG1"; "x"]%string
  = [FLOOR; FLOOR; FLOOR; ZONE; ZONE; ZONE; EQUIP_ID; BLDG; MISC].
Proof. reflexivity. Qed.

Example annotate_ex :
  let a := annotate_record (RawRecord (s2l "AHU-03.SAT_AI") (s2l "B1")) small_vocabs in
  an_token_labels a = [EQUIP; EQUIP_ID; SUBCOMP; IO_TYPE]
  /\ an_bio_tags a = map s2l ["B-EQUIP"; "B-EQUIP_ID"; "B-SUBCOMP"; "B-IO_TYPE"]%string.
Proof. split; reflexivity. Qed.

Example bio_ex :
  categories_to_bio [Some (s2l "MISC"); None; Some (s2l "EQUIP"); Some (s2l "EQUIP"); Some (s2l "MISC")]
  = map s2l ["O"; "O"; "B-EQUIP"; "I-EQUIP"; "O"]%string.
Proof. reflexivity. Qed.

Example extract_ex :
  let v := extract_vocab corpus12 in
  (equip_vocab v, subcomp_vocab v, point_func_vocab v, io_type_vocab v, vendor_vocab v)
  = ([s2l "AHU"], [s2l "SAT"], [s2l "CMD"], [s2l "AI"], [s2l "SIEMENS"]).
Proof. vm_compute. reflexivity. Qed.

(* ----------------------------------------------------------------- *)
(** *** General facts *)

Lemma str_eqb_true (a b : str) : str_eqb a b = true <-> a = b.
Proof. unfold str_eqb; destruct (list_eq_dec ascii_dec a b); split; congruence. Qed.

Lemma str_eqb_refl (a : str) : str_eqb a a = true.
Proof. apply str_eqb_true; reflexivity. Qed.

Lemma mem_In (x : str) (xs : list str) : mem x xs = true <-> In x xs.
Proof.
  unfold mem; rewrite existsb_exists; split.
  - intros [y [Hy Heq]]; apply str_eqb_true in Heq; subst; exact Hy.
  - intros H; exists x; split; [exact H | apply str_eqb_refl].
Qed.

Lemma mem_false_not_In (x : str) (xs : list str) : mem x xs = false <-> ~ In x xs.
Proof.
  rewrite <- mem_In; destruct (mem x xs); split; congruence.
Qed.

Lemma forall_ascii (f : ascii -> bool) :
  forallb f all_ascii = true -> forall c, f c = true.
Proof.
  intros H c; rewrite forallb_forall in H; apply H.
  unfold all_ascii; apply in_map_iff; exists (nat_of_ascii c); split.
  - apply ascii_nat_embedding.
  - apply in_seq; pose proof (nat_ascii_bounded c); lia.
Qed.

(** Prove [P c] for every ASCII [c] from a boolean [f] checked on all of them. *)
Ltac by_ascii f c :=
  let H := fresh in
  pose proof (forall_ascii f ltac:(vm_compute; reflexivity) c) as H;
  cbv beta in H.

Lemma letter_not_digit (c : ascii) : is_letter c && is_digit c = false.
Proof.
  by_ascii (fun c => negb (is_letter c && is_digit c)) c.
  destruct (is_letter c && is_digit c); easy.
Qed.

Lemma forallb_rev {A} (f : A -> bool) (l : list A) : forallb f (rev l) = forallb f l.
Proof.
  destruct (forallb f l) eqn:E.
  - rewrite forallb_forall in *; intros x Hx; apply E, in_rev, Hx.
  - apply not_true_iff_false; intros H; rewrite <- not_true_iff_false in E; apply E.
    rewrite forallb_forall in *; intros x Hx; apply H, (in_rev l x), Hx.
Qed.

Lemma In_skipn_In {A} (n : nat) (l : list A) (x : A) : In x (skipn n l) -> In x l.
Proof. intros H; rewrite <- (firstn_skipn n l); apply in_or_app; right; exact H. Qed.

Lemma In_firstn_In {A} (n : nat) (l : list A) (x : A) : In x (firstn n l) -> In x l.
Proof. intros H; rewrite <- (firstn_skipn n l); apply in_or_app; left; exact H. Qed.

Lemma In_removelast_In {A} (l : list A) (x : A) : In x (removelast l) -> In x l.
Proof.
  induction l as [|a l IH]; simpl; [easy|].
  destruct l as [|b l']; [easy|]. intros [H|H]; [left; exact H | right; apply IH, H].
Qed.

Lemma filter_filter_sub {A} (f g : A -> bool) (l : list A) :
  (forall x, f x = true -> g x = true) -> filter f (filter g l) = filter f l.
Proof.
  intros Hfg; induction l as [|a l IH]; simpl; [reflexivity|].
  destruct (g a) eqn:Eg; simpl.
  - destruct (f a); [f_equal|]; exact IH.
  - destruct (f a) eqn:Ef; [rewrite (Hfg a Ef) in Eg; discriminate | exact IH].
Qed.

(* ----------------------------------------------------------------- *)
(** *** Tokenizer lemmas *)

(** The fragments of [DELIM_RE.split] put together are the label without its
    separators. *)
Lemma delim_split_concat (s cur : str) (b : bool) :
  List.concat (delim_split_aux cur b s) = rev cur ++ filter not_delim s.
Proof.
  revert cur b; induction s as [|c s IH]; intros cur b; simpl.
  - rewrite !app_nil_r; reflexivity.
  - unfold not_delim in *; destruct (is_delim c) eqn:E; simpl.
    + destruct b; [apply IH|]. simpl; rewrite IH; reflexivity.
    + rewrite IH; simpl; rewrite <- app_assoc; reflexivity.
Qed.

Lemma In_delim_split_no_delim (s f : str) (c : ascii) :
  In f (delim_split s) -> In c f -> is_delim c = false.
Proof.
  intros Hf Hc.
  assert (Hin : In c (List.concat (delim_split s))) by (apply in_concat; eauto).
  unfold delim_split in Hin; rewrite delim_split_concat in Hin; simpl in Hin.
  apply filter_In in Hin; destruct Hin as [_ H]; unfold not_delim in H.
  destruct (is_delim c); easy.
Qed.

(** Each part found by the [findall] is non-empty and made of characters of
    the run in progress or of the rest of the input. *)
Lemma findall_aux_parts (s run p : str) :
  In p (findall_aux run s) -> p <> [] /\ (forall c, In c p -> In c run \/ In c s).
Proof.
  revert run; induction s as [|c s IH]; intros run Hp.
  - destruct run as [|r rs]; simpl in Hp; [easy|].
    destruct Hp as [<-|[]]; split.
    + intros H; apply (f_equal (@List.length ascii)) in H; rewrite length_app in H; simpl in H; lia.
    + intros x Hx; left; apply in_rev; exact Hx.
  - destruct run as [|r rs]; simpl in Hp.
    + destruct (is_alnum c).
      * destruct (IH _ Hp) as [Hne Hch]; split; [exact Hne|].
        intros x Hx; destruct (Hch x Hx) as [[<-|[]]|H]; right; simpl; auto.
      * destruct Hp as [<-|Hp].
        -- split; [easy|]. intros x [<-|[]]; right; left; reflexivity.
        -- destruct (IH _ Hp) as [Hne Hch]; split; [exact Hne|].
           intros x Hx; destruct (Hch x Hx) as [[]|H]; right; simpl; auto.
    + destruct (same_run_class r c).
      * destruct (IH _ Hp) as [Hne Hch]; split; [exact Hne|].
        intros x Hx; destruct (Hch x Hx) as [[<-|H]|H].
        -- right; left; reflexivity.
        -- left; exact H.
        -- right; right; exact H.
      * destruct Hp as [<-|Hp].
        -- split.
           ++ intros H; apply (f_equal (@List.length ascii)) in H;
                rewrite length_app in H; simpl in H; lia.
           ++ intros x Hx; left; apply in_rev; exact Hx.
        -- destruct (is_alnum c).
           ++ destruct (IH _ Hp) as [Hne Hch]; split; [exact Hne|].
              intros x Hx; destruct (Hch x Hx) as [[<-|[]]|H]; right; simpl; auto.
           ++ destruct Hp as [<-|Hp].
              ** split; [easy|]. intros x [<-|[]]; right; left; reflexivity.
              ** destruct (IH _ Hp) as [Hne Hch]; split; [exact Hne|].
                 intros x Hx; destruct (Hch x Hx) as [[]|H]; right; simpl; auto.
Qed.

Lemma In_tokenize (label tok : str) :
  In tok (tokenize label) ->
  exists f, In f (delim_split label) /\ In tok (findall_alpha_num f).
Proof.
  unfold tokenize, split_alpha_num; intros H.
  apply in_flat_map in H; destruct H as [f [Hf Htok]].
  apply filter_In in Hf; apply filter_In in Htok.
  exists f; split; [apply Hf | apply Htok].
Qed.

Lemma concat_nil_all_nil {A} (l : list (list A)) :
  List.concat l = [] -> forall x, In x l -> x = [].
Proof.
  induction l as [|a l IH]; simpl; [easy|].
  intros H x [<-|Hx]; apply app_eq_nil in H; destruct H as [Ha Hl]; auto.
Qed.

Lemma filter_nonblank_all_nil (l : list str) :
  (forall x, In x l -> x = []) -> filter nonblank l = [].
Proof.
  induction l as [|a l IH]; simpl; intros H; [reflexivity|].
  rewrite (H a (or_introl eq_refl)); simpl; apply IH; auto.
Qed.

Lemma filter_not_delim_all_delim (l : str) :
  forallb is_delim l = true -> filter not_delim l = [].
Proof.
  induction l as [|a l IH]; simpl; [reflexivity|].
  intros H; apply andb_prop in H; destruct H as [Ha Hl].
  unfold not_delim at 1; rewrite Ha; simpl; apply IH, Hl.
Qed.

Lemma single_other_alnum (run : str) :
  forallb is_alnum run = true -> single_with is_other (rev run) = false.
Proof.
  intros H; rewrite <- forallb_rev in H.
  destruct (rev run) as [|x [|y l]]; simpl in *; try reflexivity.
  rewrite andb_true_r in H; unfold is_other; rewrite H; reflexivity.
Qed.

Lemma is_other_not_alnum (c : ascii) : is_other c = true -> is_alnum c = false.
Proof. unfold is_other; destruct (is_alnum c); easy. Qed.

Lemma same_run_class_alnum (r c : ascii) : same_run_class r c = true -> is_alnum c = true.
Proof.
  unfold same_run_class, is_alnum; intros H.
  destruct (is_letter c), (is_digit c), (is_letter r), (is_digit r); easy.
Qed.

(** After the run in progress, [findall] emits exactly the "other"
    characters of the rest as one-character parts, in order. *)
Lemma findall_other (s run : str) :
  forallb is_alnum run = true ->
  filter (single_with is_other) (findall_aux run s) = map sing (filter is_other s).
Proof.
  revert run; induction s as [|c s IH]; intros run Hrun.
  - destruct run as [|r rs]; cbn [findall_aux filter]; [reflexivity|].
    rewrite single_other_alnum by exact Hrun; reflexivity.
  - assert (Hstart : filter (single_with is_other)
              (if is_alnum c then findall_aux [c] s else [c] :: findall_aux [] s)
            = map sing (filter is_other (c :: s))).
    { destruct (is_alnum c) eqn:Ea; simpl.
      - rewrite IH by (simpl; rewrite Ea; reflexivity).
        destruct (is_other c) eqn:Eo; [apply is_other_not_alnum in Eo; congruence | reflexivity].
      - rewrite IH by reflexivity. destruct (is_other c); reflexivity. }
    destruct run as [|r rs]; cbn [findall_aux]; [exact Hstart|].
    destruct (same_run_class r c) eqn:Es.
    + rewrite IH.
      * pose proof (same_run_class_alnum _ _ Es) as Ha; simpl.
        destruct (is_other c) eqn:Eo; [apply is_other_not_alnum in Eo; congruence | reflexivity].
      * simpl; rewrite (same_run_class_alnum _ _ Es); exact Hrun.
    + cbn [filter]; rewrite single_other_alnum by exact Hrun; exact Hstart.
Qed.

Lemma filter_flat_map {A B} (f : B -> bool) (g : A -> list B) (l : list A) :
  filter f (flat_map g l) = flat_map (fun x => filter f (g x)) l.
Proof. induction l as [|a l IH]; simpl; [reflexivity|]; rewrite filter_app, IH; reflexivity. Qed.

Lemma flat_map_sing_concat (l : list str) :
  flat_map (fun x => map sing (filter is_other x)) l = map sing (filter is_other (List.concat l)).
Proof.
  induction l as [|a l IH]; simpl; [reflexivity|]. rewrite filter_app, map_app, IH; reflexivity.
Qed.

Lemma filter_other_blank (x : str) : nonblank x = false -> filter is_other x = [].
Proof.
  induction x as [|a x IH]; simpl; [reflexivity|].
  intros H; apply orb_false_elim in H; destruct H as [Ha Hx].
  unfold is_other at 1; destruct (is_py_space a); [|discriminate].
  rewrite andb_false_r; apply IH, Hx.
Qed.

Lemma filter_other_concat_nonblank (l : list str) :
  filter is_other (List.concat (filter nonblank l)) = filter is_other (List.concat l).
Proof.
  induction l as [|a l IH]; simpl; [reflexivity|].
  destruct (nonblank a) eqn:E; simpl; rewrite !filter_app, IH; [reflexivity|].
  rewrite (filter_other_blank a E); reflexivity.
Qed.

(** Claim C7: every token the tokenizer emits is non-empty and contains none
    of the six separators (space, underscore, period, hyphen, slash, colon);
    [tokenize "AHU-03.SAT_AI" = ["AHU";"03";"SAT";"AI"]],
    [tokenize "RM1203E" = ["RM";"1203";"E"]], and an empty or
    all-separator label yields no token. *)
Theorem tokenize_tokens_wellformed :
  (forall label tok, In tok (tokenize label) ->
     tok <> [] /\ (forall c, In c tok -> is_delim c = false))
  /\ tokenize (s2l "AHU-03.SAT_AI") = strs ["AHU"; "03"; "SAT"; "AI"]%string
  /\ tokenize (s2l "RM1203E") = strs ["RM"; "1203"; "E"]%string
  /\ (forall label, forallb is_delim label = true -> tokenize label = []).
Proof.
  split; [|split; [reflexivity | split; [reflexivity|]]].
  - intros label tok Htok.
    destruct (In_tokenize _ _ Htok) as [f [Hf Hp]].
    destruct (findall_aux_parts _ _ _ Hp) as [Hne Hch]; split; [exact Hne|].
    intros c Hc; destruct (Hch c Hc) as [[]|Hcf].
    apply (In_delim_split_no_delim label f c Hf Hcf).
  - intros label Hall; unfold tokenize.
    assert (Hc : List.concat (delim_split label) = []).
    { unfold delim_split; rewrite delim_split_concat; simpl.
      apply filter_not_delim_all_delim, Hall. }
    rewrite filter_nonblank_all_nil by (apply concat_nil_all_nil, Hc); reflexivity.
Qed.

(** Claim C8 (as stated) fails: in ["A<TAB>B"] the tab is neither a letter,
    a digit nor a separator, yet [split_alpha_num] drops it ([p.strip()] is
    empty), so it is not a token of its own. *)
Lemma tokenize_other_chars_counterexample :
  let label := [ "A"%char; "009"%char; "B"%char ] in
  filter (single_with claimed_other) (tokenize label)
  <> map sing (filter claimed_other label).
Proof. vm_compute. discriminate. Qed.

(** Claim C8 (amended): every character of a label that is neither an ASCII
    letter, nor a decimal digit 0-9 (what [\d] matches on Latin-1), nor a
    separator, nor a whitespace character in the sense of [str.isspace()]
    (tab, newline, vertical tab, form feed, carriage return, \x1c-\x1f,
    space, \x85, \xa0), which [str.strip()] removes, appears in the
    tokenizer's output as a one-character token,
    in order; and no other one-character token holds such a character. *)
Theorem tokenize_other_chars :
  forall label,
    filter (single_with is_other) (tokenize label) = map sing (filter is_other label).
Proof.
  intros label; unfold tokenize, split_alpha_num.
  rewrite filter_flat_map.
  erewrite flat_map_ext.
  2:{ intros f. rewrite filter_filter_sub.
      - apply findall_other; reflexivity.
      - intros t Ht; destruct t as [|c [|d t]]; simpl in *; try discriminate.
        unfold is_other in Ht; destruct (is_py_space c); [rewrite andb_false_r in Ht; discriminate|].
        reflexivity. }
  rewrite flat_map_sing_concat, filter_other_concat_nonblank.
  unfold delim_split; rewrite delim_split_concat; simpl.
  rewrite filter_filter_sub; [reflexivity|].
  intros c Hc; unfold is_other, not_delim in *; destruct (is_delim c); [|reflexivity].
  rewrite andb_false_r, andb_false_l in Hc; discriminate.
Qed.

(* ----------------------------------------------------------------- *)
(** *** Regular-expression lemmas *)

Lemma match_pieces_cons (ic : bool) (k : cls) (lo : nat) (hi : option nat)
      (ps : list piece) (s : str) :
  match_pieces ic (Piece k lo hi :: ps) s = true <->
  exists n, lo <= n /\ n <= piece_ub hi s
            /\ forallb (cls_match ic k) (firstn n s) = true
            /\ match_pieces ic ps (skipn n s) = true.
Proof.
  cbn [match_pieces]; rewrite existsb_exists; unfold piece_ub; split.
  - intros [n [Hin H]]; apply in_seq in Hin; apply andb_prop in H.
    exists n; repeat split; try apply H; lia.
  - intros [n [H1 [H2 [H3 H4]]]]; exists n; split.
    + apply in_seq; lia.
    + rewrite H3, H4; reflexivity.
Qed.

Lemma match_pieces_nil (ic : bool) (s : str) : match_pieces ic [] s = true -> s = [].
Proof. destruct s; easy. Qed.

Lemma piece_ub_le (hi : option nat) (s : str) : piece_ub hi s <= List.length s.
Proof. destruct hi; simpl; lia. Qed.

(** A piece that must match at least once consumes a character of its class. *)
Lemma match_pieces_witness (ic : bool) (ps : list piece) (s : str)
      (k : cls) (lo : nat) (hi : option nat) :
  match_pieces ic ps s = true -> In (Piece k lo hi) ps -> 1 <= lo ->
  exists c, In c s /\ cls_match ic k c = true.
Proof.
  revert s; induction ps as [|[k' lo' hi'] ps IH]; intros s Hm Hin Hlo; [easy|].
  apply match_pieces_cons in Hm; destruct Hm as [n [Hn1 [Hn2 [Hf Hr]]]].
  destruct Hin as [Heq|Hin].
  - injection Heq as -> -> ->.
    pose proof (piece_ub_le hi s).
    destruct s as [|x s]; [simpl in *; lia|].
    destruct n as [|n]; [lia|].
    simpl in Hf; apply andb_prop in Hf.
    exists x; split; [left; reflexivity | apply Hf].
  - destruct (IH _ Hr Hin Hlo) as [c [Hc Hk]].
    exists c; split; [apply (In_skipn_In n s c Hc) | exact Hk].
Qed.

Lemma re_match_witness (p : pattern) (s : str) (k : cls) (lo : nat) (hi : option nat) :
  re_match p s = true -> In (Piece k lo hi) (pat_pieces p) -> 1 <= lo ->
  exists c, In c s /\ cls_match (pat_icase p) k c = true.
Proof.
  unfold re_match; intros Hm Hin Hlo; apply orb_prop in Hm; destruct Hm as [Hm|Hm].
  - eapply match_pieces_witness; eauto.
  - destruct (rev s) as [|x r]; [discriminate|].
    apply andb_prop in Hm; destruct Hm as [_ Hm].
    destruct (match_pieces_witness _ _ _ _ _ _ Hm Hin Hlo) as [c [Hc Hk]].
    exists c; split; [apply In_removelast_In, Hc | exact Hk].
Qed.

(** An all-digit string has no final newline, so [$] only matches at its end. *)
Lemma re_match_digits (p : pattern) (s : str) :
  forallb is_digit s = true ->
  re_match p s = match_pieces (pat_icase p) (pat_pieces p) s.
Proof.
  unfold re_match; intros Hd.
  destruct (rev s) as [|x r] eqn:Er; [apply orb_false_r|].
  assert (Hx : In x s) by (apply in_rev; rewrite Er; left; reflexivity).
  rewrite forallb_forall in Hd; specialize (Hd x Hx).
  destruct (Ascii.eqb x "010"%char) eqn:Ex; [|rewrite andb_false_l, orb_false_r; reflexivity].
  apply Ascii.eqb_eq in Ex; subst x; discriminate.
Qed.

Lemma re_match_digits_false (p : pattern) (s : str) (k : cls) (lo : nat) (hi : option nat) :
  forallb is_digit s = true -> In (Piece k lo hi) (pat_pieces p) -> 1 <= lo ->
  (forall c, is_digit c = true -> cls_match (pat_icase p) k c = false) ->
  re_match p s = false.
Proof.
  intros Hd Hin Hlo Hk; apply not_true_iff_false; intros Hm.
  destruct (re_match_witness _ _ _ _ _ Hm Hin Hlo) as [c [Hc Hkc]].
  rewrite forallb_forall in Hd; rewrite (Hk c (Hd c Hc)) in Hkc; discriminate.
Qed.

Lemma digit_not_letter_classes (c : ascii) :
  is_digit c = true ->
  cls_match true (CLit "F") c = false /\ cls_match true (CLit "R") c = false
  /\ cls_match true AZ c = false.
Proof.
  by_ascii (fun c => negb (is_digit c)
              || negb (cls_match true (CLit "F") c || cls_match true (CLit "R") c
                       || cls_match true AZ c)) c.
  intros Hd; rewrite Hd in *; simpl in *.
  destruct (cls_match true (CLit "F") c), (cls_match true (CLit "R") c),
           (cls_match true AZ c); easy.
Qed.

Lemma forallb_digit_cls (ic : bool) (s : str) :
  forallb is_digit s = true -> forallb (cls_match ic CDigit) s = true.
Proof.
  rewrite !forallb_forall; intros H c Hc; unfold cls_match; simpl; rewrite (H c Hc); reflexivity.
Qed.

(** [r"^\d{3,4}[A-Z]?$"] on an all-digit string. *)
Lemma room_digits_match (s : str) :
  forallb is_digit s = true ->
  re_match (Pattern [Piece CDigit 3 (Some 4); opt AZ] true) s
  = (List.length s =? 3) || (List.length s =? 4).
Proof.
  intros Hd; rewrite re_match_digits by exact Hd; cbn [pat_icase pat_pieces].
  destruct (match_pieces _ _ s) eqn:Hm; symmetry.
  - apply match_pieces_cons in Hm; destruct Hm as [n [Hn1 [Hn2 [_ Hr]]]].
    unfold opt in Hr; apply match_pieces_cons in Hr; destruct Hr as [m [_ [Hm2 [Hf Hr]]]].
    apply match_pieces_nil in Hr.
    unfold piece_ub in Hn2, Hm2.
    destruct m as [|m].
    + simpl in Hr. assert (Hl := length_skipn n s); rewrite Hr in Hl; simpl in Hl.
      apply orb_true_iff; rewrite !Nat.eqb_eq; lia.
    + destruct (skipn n s) as [|x r] eqn:Es; [simpl in Hm2; lia|].
      assert (m = 0) by (simpl in Hm2; lia); subst m.
      simpl in Hf; rewrite andb_true_r in Hf.
      assert (Hx : In x s) by (apply (In_skipn_In n); rewrite Es; left; reflexivity).
      rewrite forallb_forall in Hd.
      destruct (digit_not_letter_classes x (Hd x Hx)) as [_ [_ Haz]].
      rewrite Haz in Hf; discriminate.
  - apply not_true_iff_false in Hm; apply not_true_iff_false; intros Hl; apply Hm.
    apply match_pieces_cons; exists (List.length s).
    apply orb_true_iff in Hl; rewrite !Nat.eqb_eq in Hl.
    unfold piece_ub; repeat split; try lia.
    + rewrite firstn_all; apply forallb_digit_cls, Hd.
    + rewrite skipn_all; reflexivity.
Qed.

(** [r"^\d+$"] on a non-empty all-digit string. *)
Lemma digits_match_plus (s : str) :
  s <> [] -> forallb is_digit s = true -> re_match (Pattern [plus CDigit] false) s = true.
Proof.
  intros Hne Hd; rewrite re_match_digits by exact Hd; cbn [pat_icase pat_pieces].
  unfold plus; apply match_pieces_cons; exists (List.length s).
  destruct s as [|x s]; [congruence|].
  unfold piece_ub; repeat split; try (simpl; lia).
  - rewrite firstn_all; apply forallb_digit_cls, Hd.
  - rewrite skipn_all; reflexivity.
Qed.

(** A pattern with a mandatory letter piece never matches an all-digit token. *)
Ltac digits_no_match k lo hi Hd :=
  rewrite (re_match_digits_false _ _ k lo hi Hd);
  [ | simpl; tauto | lia
    | let c := fresh "c" in let Hc := fresh "Hc" in
      intros c Hc; destruct (digit_not_letter_classes c Hc) as [? [? ?]]; simpl; assumption ].

Lemma any_match_digits (token : str) :
  token <> [] -> forallb is_digit token = true ->
  any_match FLOOR_PATTERNS token = false
  /\ any_match ROOM_PATTERNS token
     = (List.length token =? 3) || (List.length token =? 4)
  /\ any_match EQUIP_ID_PATTERNS token = true.
Proof.
  intros Hne Hd; unfold any_match, FLOOR_PATTERNS, ROOM_PATTERNS, EQUIP_ID_PATTERNS.
  cbn [existsb]; split; [|split].
  - digits_no_match (CLit "F") 1 (Some 1) Hd.
    digits_no_match (CLit "F") 1 (Some 1) Hd.
    reflexivity.
  - digits_no_match (CLit "R") 1 (Some 1) Hd.
    rewrite room_digits_match by exact Hd.
    digits_no_match AZ 1 (Some 3) Hd.
    rewrite orb_false_l, !orb_false_r; reflexivity.
  - rewrite digits_match_plus by assumption; reflexivity.
Qed.

Lemma label_token_vocab_miss (token : str) (vs : vocabs) :
  ~ In (upper token) (v_VENDOR_TAG vs) -> ~ In (upper token) (v_IO_TYPE vs) ->
  ~ In (upper token) (v_EQUIP vs) -> ~ In (upper token) (v_SUBCOMP vs) ->
  ~ In (upper token) (v_POINT_FUNC vs) ->
  label_token token vs =
  if any_match FLOOR_PATTERNS token then FLOOR
  else if any_match ROOM_PATTERNS token then ZONE
  else if any_match EQUIP_ID_PATTERNS token then EQUIP_ID
  else if any_match BUILDING_HINT_PATTERNS token then BLDG
  else MISC.
Proof.
  intros H1 H2 H3 H4 H5; unfold label_token.
  rewrite <- mem_false_not_In in H1, H2, H3, H4, H5.
  rewrite H1, H2, H3, H4, H5; reflexivity.
Qed.

(** Claim C1: for a token whose uppercase form is in none of the five
    vocabularies and which consists only of decimal digits, the labeler
    answers ZONE (never EQUIP_ID) when it has 3 or 4 digits, and EQUIP_ID
    when it has 1, 2, or 5 or more digits. *)
Theorem label_token_all_digits (token : str) (vs : vocabs) :
  ~ In (upper token) (v_VENDOR_TAG vs) -> ~ In (upper token) (v_IO_TYPE vs) ->
  ~ In (upper token) (v_EQUIP vs) -> ~ In (upper token) (v_SUBCOMP vs) ->
  ~ In (upper token) (v_POINT_FUNC vs) ->
  token <> [] -> forallb is_digit token = true ->
  ((List.length token = 3 \/ List.length token = 4) ->
     label_token token vs = ZONE /\ label_token token vs <> EQUIP_ID)
  /\ ((List.length token <= 2 \/ 5 <= List.length token) ->
     label_token token vs = EQUIP_ID).
Proof.
  intros H1 H2 H3 H4 H5 Hne Hd.
  rewrite (label_token_vocab_miss token vs H1 H2 H3 H4 H5).
  destruct (any_match_digits token Hne Hd) as [Hf [Hr He]].
  rewrite Hf, Hr, He; split; intros Hl.
  - assert (E : (List.length token =? 3) || (List.length token =? 4) = true)
      by (apply orb_true_iff; rewrite !Nat.eqb_eq; exact Hl).
    rewrite E; split; [reflexivity | discriminate].
  - assert (E : (List.length token =? 3) || (List.length token =? 4) = false).
    { apply not_true_iff_false; rewrite orb_true_iff, !Nat.eqb_eq; lia. }
    rewrite E; reflexivity.
Qed.

Lemma label_token_all_digits_witness :
  (label_token (s2l "2130") empty_vocabs = ZONE
   /\ label_token (s2l "2130") empty_vocabs <> EQUIP_ID)
  /\ label_token (s2l "12345") empty_vocabs = EQUIP_ID.
Proof.
  split.
  - apply (label_token_all_digits (s2l "2130") empty_vocabs);
      [simpl; tauto .. | discriminate | reflexivity | simpl; lia].
  - apply (label_token_all_digits (s2l "12345") empty_vocabs);
      [simpl; tauto .. | discriminate | reflexivity | simpl; lia].
Defined.

(* ----------------------------------------------------------------- *)
(** *** Structured aggregator lemmas *)

Ltac next_cat c lit :=
  destruct (str_eqb c (s2l lit)) eqn:?E; [left; apply str_eqb_true; assumption | right].

Lemma cat_cases (c : str) :
  c = s2l "BLDG" \/ c = s2l "FLOOR" \/ c = s2l "ZONE" \/ c = s2l "EQUIP"
  \/ c = s2l "EQUIP_ID" \/ c = s2l "SUBCOMP" \/ c = s2l "POINT_FUNC"
  \/ c = s2l "IO_TYPE" \/ c = s2l "VENDOR_TAG"
  \/ (str_eqb c (s2l "BLDG") = false /\ str_eqb c (s2l "FLOOR") = false
      /\ str_eqb c (s2l "ZONE") = false /\ str_eqb c (s2l "EQUIP") = false
      /\ str_eqb c (s2l "EQUIP_ID") = false /\ str_eqb c (s2l "SUBCOMP") = false
      /\ str_eqb c (s2l "POINT_FUNC") = false /\ str_eqb c (s2l "IO_TYPE") = false
      /\ str_eqb c (s2l "VENDOR_TAG") = false).
Proof.
  next_cat c "BLDG"%string. next_cat c "FLOOR"%string. next_cat c "ZONE"%string.
  next_cat c "EQUIP"%string. next_cat c "EQUIP_ID"%string. next_cat c "SUBCOMP"%string.
  next_cat c "POINT_FUNC"%string. next_cat c "IO_TYPE"%string.
  destruct (str_eqb c (s2l "VENDOR_TAG")) eqn:?E; [left; apply str_eqb_true; assumption|].
  right; repeat split; assumption.
Qed.

(** The [if/elif] chain updates every field independently: first-wins for
    bldg, floor, equip, equip_id; last-wins for the other four; ZONE appends. *)
Lemma agg_step_fields (b f : option str) (z : list str) (e ei sc pf io v : option str)
      (t c : str) :
  agg_step (AggState b f z e ei sc pf io v) (t, c)
  = AggState (upd_first b (s2l "BLDG") c t) (upd_first f (s2l "FLOOR") c t)
      (if str_eqb c (s2l "ZONE") then z ++ [t] else z)
      (upd_first e (s2l "EQUIP") c t) (upd_first ei (s2l "EQUIP_ID") c t)
      (upd_last sc (s2l "SUBCOMP") c t) (upd_last pf (s2l "POINT_FUNC") c t)
      (upd_last io (s2l "IO_TYPE") c t) (upd_last v (s2l "VENDOR_TAG") c t).
Proof.
  unfold agg_step, upd_first, upd_last.
  destruct (cat_cases c) as [->|[->|[->|[->|[->|[->|[->|[->|[->|
            (E1&E2&E3&E4&E5&E6&E7&E8&E9)]]]]]]]]].
  1-9: destruct b, f, e, ei; vm_compute; reflexivity.
  rewrite E1, E2, E3, E4, E5, E6, E7, E8, E9; simpl.
  destruct b, f, e, ei; reflexivity.
Qed.

Lemma first_tok_app (cat : str) (l1 l2 : list (str * str)) :
  first_tok cat (l1 ++ l2) = first_or (first_tok cat l1) (first_tok cat l2).
Proof.
  induction l1 as [|[t c] l1 IH]; simpl; [reflexivity|].
  destruct (str_eqb c cat); [reflexivity | exact IH].
Qed.

Lemma fold_agg (pairs : list (str * str)) (st : agg_state) :
  fold_left agg_step pairs st
  = AggState (first_or (a_bldg st) (first_tok (s2l "BLDG") pairs))
      (first_or (a_floor st) (first_tok (s2l "FLOOR") pairs))
      (a_zone_tokens st ++ zone_toks pairs)
      (first_or (a_equip st) (first_tok (s2l "EQUIP") pairs))
      (first_or (a_equip_id st) (first_tok (s2l "EQUIP_ID") pairs))
      (last_or (a_subcomp st) (last_tok (s2l "SUBCOMP") pairs))
      (last_or (a_point_func st) (last_tok (s2l "POINT_FUNC") pairs))
      (last_or (a_io_type st) (last_tok (s2l "IO_TYPE") pairs))
      (last_or (a_vendor st) (last_tok (s2l "VENDOR_TAG") pairs)).
Proof.
  revert st; induction pairs as [|[t c] pairs IH]; intros st.
  - destruct st as [b f z e ei sc pf io v]; simpl; rewrite app_nil_r.
    destruct b, f, e, ei; reflexivity.
  - cbn [fold_left]; rewrite IH; destruct st as [b f z e ei sc pf io v].
    rewrite agg_step_fields; cbn [a_bldg a_floor a_zone_tokens a_equip a_equip_id
                                  a_subcomp a_point_func a_io_type a_vendor].
    unfold last_tok, zone_toks; cbn [rev first_tok filter map snd fst].
    rewrite !first_tok_app; cbn [first_tok].
    unfold upd_first, upd_last, first_or, last_or.
    f_equal;
      repeat match goal with
             | |- context [first_tok ?k (rev pairs)] => destruct (first_tok k (rev pairs))
             | |- context [str_eqb ?x ?y] => destruct (str_eqb x y)
             | |- context [match ?o with Some _ => _ | None => _ end] => is_var o; destruct o
             end; simpl; try reflexivity; rewrite <- app_assoc; reflexivity.
Qed.

Lemma build_structured_spec (tokens cats : list str) :
  let pairs := combine tokens cats in
  build_structured tokens cats
  = Structured (first_tok (s2l "BLDG") pairs) (first_tok (s2l "FLOOR") pairs)
      (match zone_toks pairs with [] => None | zs => Some (join_space zs) end)
      (first_tok (s2l "EQUIP") pairs) (first_tok (s2l "EQUIP_ID") pairs)
      (last_tok (s2l "SUBCOMP") pairs) (last_tok (s2l "POINT_FUNC") pairs)
      (last_tok (s2l "IO_TYPE") pairs) (last_tok (s2l "VENDOR_TAG") pairs).
Proof.
  intros pairs; unfold build_structured; rewrite fold_agg; simpl.
  unfold last_or; fold pairs.
  repeat match goal with
         | |- context [match last_tok ?k pairs with Some _ => _ | None => _ end] =>
             destruct (last_tok k pairs)
         end; reflexivity.
Qed.

(** Claim C4: over the (token, category) pairs ([zip(tokens, cats)]), the
    aggregator takes the first BLDG, FLOOR, EQUIP and EQUIP_ID token, the last
    SUBCOMP, POINT_FUNC, IO_TYPE and VENDOR_TAG token, joins all ZONE tokens in
    order with single spaces (None when there is none), and leaves a field
    None when no token has its category; on the 8-token example it gives
    bldg=BLDG1, floor=FL03, zone=RM1203E, equip=AHU, equip_id=03,
    subcomp=SAT, io_type=AI, point_func=CMD. *)
Theorem build_structured_fields :
  (forall tokens cats,
     let pairs := combine tokens cats in
     build_structured tokens cats
     = Structured (first_tok (s2l "BLDG") pairs) (first_tok (s2l "FLOOR") pairs)
         (match zone_toks pairs with [] => None | zs => Some (join_space zs) end)
         (first_tok (s2l "EQUIP") pairs) (first_tok (s2l "EQUIP_ID") pairs)
         (last_tok (s2l "SUBCOMP") pairs) (last_tok (s2l "POINT_FUNC") pairs)
         (last_tok (s2l "IO_TYPE") pairs) (last_tok (s2l "VENDOR_TAG") pairs))
  /\ (let s := build_structured
                 (strs ["BLDG1"; "FL03"; "RM1203E"; "AHU"; "03"; "SAT"; "AI"; "CMD"]%string)
                 (strs ["BLDG"; "FLOOR"; "ZONE"; "EQUIP"; "EQUIP_ID"; "SUBCOMP";
                        "IO_TYPE"; "POINT_FUNC"]%string) in
      bldg s = Some (s2l "BLDG1") /\ floor s = Some (s2l "FL03")
      /\ zone s = Some (s2l "RM1203E") /\ equip s = Some (s2l "AHU")
      /\ equip_id s = Some (s2l "03") /\ subcomp s = Some (s2l "SAT")
      /\ io_type s = Some (s2l "AI") /\ point_func s = Some (s2l "CMD")).
Proof.
  split.
  - exact build_structured_spec.
  - vm_compute; repeat split.
Qed.

(* ----------------------------------------------------------------- *)
(** *** Shape of the tokens *)

Lemma run_ok_extend (r c : ascii) (rs : str) :
  run_ok (r :: rs) = true -> same_run_class r c = true -> run_ok (c :: r :: rs) = true.
Proof.
  unfold run_ok, same_run_class; cbn [forallb]; intros Hr Hs.
  pose proof (letter_not_digit r) as Hr1; pose proof (letter_not_digit c) as Hc1.
  destruct (is_letter r), (is_digit r), (is_letter c), (is_digit c);
    simpl in *; try discriminate; try rewrite Hr; auto.
  all: try (apply orb_prop in Hr; destruct Hr as [Hr|Hr]; try discriminate; rewrite Hr;
            auto using orb_true_r).
Qed.

Lemma run_ok_single (c : ascii) : is_alnum c = true -> run_ok [c] = true.
Proof. unfold run_ok, is_alnum; simpl; destruct (is_letter c), (is_digit c); easy. Qed.

Lemma homogeneous_rev_run (run : str) : run_ok run = true -> homogeneous (rev run) = true.
Proof.
  unfold run_ok, homogeneous; rewrite !forallb_rev; intros H; rewrite H; reflexivity.
Qed.

Lemma findall_aux_homogeneous (s run p : str) :
  run_ok run = true -> In p (findall_aux run s) -> homogeneous p = true.
Proof.
  revert run; induction s as [|c s IH]; intros run Hrun Hp.
  - destruct run as [|r rs]; cbn [findall_aux] in Hp; [easy|].
    destruct Hp as [<-|[]]; apply homogeneous_rev_run, Hrun.
  - assert (Hstart : In p (if is_alnum c then findall_aux [c] s else [c] :: findall_aux [] s)
                     -> homogeneous p = true).
    { destruct (is_alnum c) eqn:Ea; intros Hin.
      - apply (IH [c]); [apply run_ok_single, Ea | exact Hin].
      - destruct Hin as [<-|Hin]; [apply orb_true_r | apply (IH []); [reflexivity | exact Hin]]. }
    destruct run as [|r rs]; cbn [findall_aux] in Hp; [apply Hstart, Hp|].
    destruct (same_run_class r c) eqn:Es.
    + apply (IH (c :: r :: rs)); [apply run_ok_extend; assumption | exact Hp].
    + destruct Hp as [<-|Hp]; [apply homogeneous_rev_run, Hrun | apply Hstart, Hp].
Qed.

Lemma tokenize_homogeneous (label tok : str) :
  In tok (tokenize label) -> homogeneous tok = true.
Proof.
  intros H; destruct (In_tokenize _ _ H) as [f [_ Hp]].
  apply (findall_aux_homogeneous f []); [reflexivity | exact Hp].
Qed.

Lemma bldg_classes (c : ascii) :
  (cls_match true (CLit "B") c = true -> is_letter c = true)
  /\ (cls_match true CDigit c = true -> is_digit c = true).
Proof.
  by_ascii (fun c => (negb (cls_match true (CLit "B") c) || is_letter c)
                     && (negb (cls_match true CDigit c) || is_digit c)) c.
  apply andb_prop in H; destruct H as [H1 H2]; split; intros Hc;
    [rewrite Hc in H1 | rewrite Hc in H2]; assumption.
Qed.

(** [r"^BLDG\d+$"] needs a letter and a digit in the same token. *)
Lemma bldg_no_match_homogeneous (tok : str) :
  homogeneous tok = true -> any_match BUILDING_HINT_PATTERNS tok = false.
Proof.
  intros Hh; unfold any_match, BUILDING_HINT_PATTERNS; cbn [existsb]; rewrite orb_false_r.
  apply not_true_iff_false; intros Hm.
  destruct (re_match_witness _ _ (CLit "B") 1 (Some 1) Hm ltac:(simpl; tauto) ltac:(lia))
    as [x [Hx Hbx]].
  destruct (re_match_witness _ _ CDigit 1 None Hm ltac:(simpl; tauto) ltac:(lia))
    as [y [Hy Hdy]].
  apply (proj1 (bldg_classes x)) in Hbx; apply (proj2 (bldg_classes y)) in Hdy.
  unfold homogeneous in Hh; apply orb_prop in Hh; destruct Hh as [Hh|Hh];
    [apply orb_prop in Hh; destruct Hh as [Hh|Hh]|].
  - rewrite forallb_forall in Hh; pose proof (letter_not_digit y) as E.
    rewrite (Hh y Hy), Hdy in E; discriminate.
  - rewrite forallb_forall in Hh; pose proof (letter_not_digit x) as E.
    rewrite (Hh x Hx), Hbx in E; discriminate.
  - apply Nat.eqb_eq in Hh; destruct tok as [|a [|b l]]; simpl in Hh; try discriminate.
    destruct Hx as [<-|[]]; destruct Hy as [<-|[]].
    pose proof (letter_not_digit a) as E; rewrite Hbx, Hdy in E; discriminate.
Qed.

Lemma label_token_not_bldg (tok : str) (vs : vocabs) :
  any_match BUILDING_HINT_PATTERNS tok = false -> label_token tok vs <> BLDG.
Proof.
  intros H; unfold label_token; rewrite H.
  repeat match goal with |- context [if ?b then _ else _] => destruct b end; discriminate.
Qed.

Lemma first_tok_absent (cat : str) (pairs : list (str * str)) :
  (forall p, In p pairs -> snd p <> cat) -> first_tok cat pairs = None.
Proof.
  induction pairs as [|[t c] r IH]; simpl; intros H; [reflexivity|].
  destruct (str_eqb c cat) eqn:E.
  - apply str_eqb_true in E; exfalso; apply (H (t, c)); [left; reflexivity | exact E].
  - apply IH; intros p Hp; apply H; right; exact Hp.
Qed.

Lemma category_name_inj (c : category) : category_name c = s2l "BLDG" -> c = BLDG.
Proof. destruct c; vm_compute; congruence. Qed.

(** Claim C10: after tokenization no token of any record is labelled BLDG
    (whatever the vocabularies), and the structured field [bldg] is always
    None. *)
Theorem annotate_never_bldg :
  forall (r : raw_record) (vs : vocabs),
    ~ In BLDG (an_token_labels (annotate_record r vs))
    /\ bldg (an_structured (annotate_record r vs)) = None.
Proof.
  intros r vs.
  assert (Hlab : forall tok, In tok (tokenize (point_label r)) -> label_token tok vs <> BLDG).
  { intros tok Htok; apply label_token_not_bldg, bldg_no_match_homogeneous.
    apply (tokenize_homogeneous _ _ Htok). }
  split.
  - simpl; unfold weak_label_tokens; intros H; apply in_map_iff in H.
    destruct H as [tok [Heq Htok]]; exact (Hlab tok Htok Heq).
  - unfold annotate_record; cbn [an_structured].
    match goal with |- context [build_structured ?a ?b] =>
      pose proof (build_structured_spec a b) as E; cbv zeta in E; rewrite E end.
    cbn [bldg]; apply first_tok_absent; intros [t c] Hp Hc; simpl in Hc; subst c.
    apply in_combine_r in Hp; unfold weak_label_tokens in Hp; rewrite map_map in Hp.
    apply in_map_iff in Hp; destruct Hp as [tok [Heq Htok]].
    apply category_name_inj in Heq; exact (Hlab tok Htok Heq).
Qed.

(* ----------------------------------------------------------------- *)
(** *** BIO encoder lemmas *)

Lemma bio_aux_cons (prev : option str) (c : option str) (rest : list (option str)) :
  bio_aux prev (c :: rest) = bio_tag_spec prev c :: bio_aux (eff c) rest.
Proof.
  unfold bio_tag_spec, eff; destruct c as [s|]; cbn [bio_aux]; [|reflexivity].
  destruct (str_eqb s (s2l "MISC")); [reflexivity|].
  destruct prev as [p|]; [|reflexivity].
  rewrite <- (negb_involutive (str_eqb s p)).
  destruct (negb (str_eqb s p)); reflexivity.
Qed.

Lemma bio_aux_length (prev : option str) (cats : list (option str)) :
  List.length (bio_aux prev cats) = List.length cats.
Proof.
  revert prev; induction cats as [|c cats IH]; intros prev; [reflexivity|].
  rewrite bio_aux_cons; simpl; rewrite IH; reflexivity.
Qed.

Lemma bio_aux_nth (cats : list (option str)) (prev : option str) (i : nat) (c : option str) :
  nth_error cats i = Some c ->
  nth_error (bio_aux prev cats) i
  = Some (bio_tag_spec (match i with
                        | 0 => prev
                        | S j => match nth_error cats j with Some c' => eff c' | None => None end
                        end) c).
Proof.
  revert prev i; induction cats as [|c0 cats IH]; intros prev i Hi;
    [destruct i; discriminate|].
  rewrite bio_aux_cons; destruct i as [|j]; simpl in Hi |- *.
  - injection Hi as ->; reflexivity.
  - rewrite (IH (eff c0) j Hi); destruct j; reflexivity.
Qed.

Lemma bio_tag_spec_O (prev c : option str) :
  str_eqb (bio_tag_spec prev c) (s2l "O") = is_none (eff c).
Proof.
  unfold bio_tag_spec; destruct (eff c) as [x|]; [|reflexivity].
  destruct prev as [p|]; [destruct (str_eqb x p)|]; reflexivity.
Qed.

Lemma bio_tag_spec_after_O (c : option str) :
  startswith (bio_tag_spec None c) (s2l "I-") = false.
Proof. unfold bio_tag_spec; destruct (eff c); reflexivity. Qed.

Lemma count_O_bio_aux (prev : option str) (cats : list (option str)) :
  count_O (bio_aux prev cats) = List.length (filter (fun c => is_none (eff c)) cats).
Proof.
  revert prev; induction cats as [|c cats IH]; intros prev; [reflexivity|].
  rewrite bio_aux_cons; unfold count_O in *; cbn [filter].
  rewrite bio_tag_spec_O; destruct (is_none (eff c)); simpl; rewrite IH; reflexivity.
Qed.

(** Claim C3: the BIO tags have one entry per category; at position [i] the
    tag is O for MISC or absent, otherwise B-C or I-C according as the
    previous token's effective category (none at the start and after MISC or
    absent) differs from C or equals it; the number of O tags is the number
    of MISC/absent categories; and the tag right after a MISC/absent
    category never continues a run (it is not an I- tag). *)
Theorem categories_to_bio_spec :
  forall cats : list (option str),
    let bio := categories_to_bio cats in
    List.length bio = List.length cats
    /\ (forall i c, nth_error cats i = Some c ->
          nth_error bio i = Some (bio_tag_spec (prev_effective cats i) c))
    /\ count_O bio = List.length (filter (fun c => is_none (eff c)) cats)
    /\ (forall i c t, nth_error cats i = Some c -> eff c = None ->
          nth_error bio (S i) = Some t -> startswith t (s2l "I-") = false).
Proof.
  intros cats bio; unfold bio, categories_to_bio.
  split; [apply bio_aux_length|]. split; [|split].
  - intros i c Hi; rewrite (bio_aux_nth cats None i c Hi); destruct i; reflexivity.
  - apply count_O_bio_aux.
  - intros i c t Hi He Ht.
    assert (Hlt : S i < List.length cats).
    { rewrite <- (bio_aux_length None cats); apply nth_error_Some; congruence. }
    apply nth_error_Some in Hlt; destruct (nth_error cats (S i)) as [c'|] eqn:Hc';
      [|congruence].
    rewrite (bio_aux_nth cats None (S i) c' Hc') in Ht; simpl in Ht.
    rewrite Hi, He in Ht; injection Ht as <-; apply bio_tag_spec_after_O.
Qed.

(* ----------------------------------------------------------------- *)
(** *** Vocabulary classifier lemmas *)

Lemma set_add_In (x y : str) (xs : list str) : In y (set_add x xs) <-> y = x \/ In y xs.
Proof.
  unfold set_add; destruct (mem x xs) eqn:E.
  - apply mem_In in E; split; [tauto|]. intros [->|H]; assumption.
  - rewrite in_app_iff; simpl; split; intros; intuition.
Qed.

Lemma dict_set_keys (d : list (str * cand_stats)) (k t : str) (v : cand_stats) :
  In t (map fst (dict_set d k v)) <-> t = k \/ In t (map fst d).
Proof.
  induction d as [|[k' v'] d IH]; simpl; [intuition|].
  destruct (str_eqb k k') eqn:E; simpl.
  - apply str_eqb_true in E; subst k'; intuition.
  - rewrite IH; intuition.
Qed.

Lemma sorted_strs_In (x : str) (l : list str) : In x (sorted_strs l) <-> In x l.
Proof.
  assert (Hins : forall y m, In x (insert_str y m) <-> x = y \/ In x m).
  { intros y m; induction m as [|z m IH]; simpl; [intuition|].
    destruct (str_leb y z); simpl; rewrite ?IH; intuition. }
  induction l as [|y l IH]; simpl; [tauto|]. rewrite Hins, IH; intuition.
Qed.

Lemma sort_by_score_In (x : str * cand_stats) (l : list (str * cand_stats)) :
  In x (sort_by_score_desc l) <-> In x l.
Proof.
  assert (Hins : forall y m, In x (insert_by_score y m) <-> x = y \/ In x m).
  { intros y m; induction m as [|z m IH]; simpl; [intuition|].
    destruct (score_equip (snd z) <=? score_equip (snd y)); simpl; rewrite ?IH; intuition. }
  induction l as [|y l IH]; simpl; [tauto|]. rewrite Hins, IH; intuition.
Qed.

Lemma py_set_In (x : str) (l : list str) : In x (py_set l) <-> In x l.
Proof. apply nodup_In. Qed.

Lemma collect_step_ok (st : corpus_stats) (cs : candidates) (item : str * nat) :
  In (fst item) (map fst (token_counter st)) ->
  buckets_ok st cs -> buckets_ok st (collect_step st cs item).
Proof.
  destruct item as [t f]; destruct cs as [io ven pf sc eq]; cbn [fst].
  intros Hk (Hio & Hven & Hpf & Hsc & Heq); unfold collect_step.
  destruct (candidate_bucket t st) as [[]|] eqn:Eb;
    unfold buckets_ok; cbn [io_vocab vendor_vocab_set pointfunc_candidates
                            subcomp_candidates equip_candidates];
    refine (conj _ (conj _ (conj _ (conj _ _)))); intros u Hu; auto;
    first [ apply set_add_In in Hu | apply dict_set_keys in Hu ];
    (destruct Hu as [->|Hu]; [split; [exact Hk | exact Eb] | auto]).
Qed.

Lemma collect_candidates_ok (st : corpus_stats) : buckets_ok st (collect_candidates st).
Proof.
  unfold collect_candidates.
  assert (H0 : buckets_ok st cands_init)
    by (refine (conj _ (conj _ (conj _ (conj _ _)))); intros u Hu; destruct Hu).
  assert (Hsub : forall it, In it (token_counter st) -> In (fst it) (map fst (token_counter st)))
    by (intros it Hit; apply in_map, Hit).
  revert H0 Hsub; generalize cands_init; generalize (token_counter st) at 1 3.
  intros items; induction items as [|it its IH]; intros cs Hcs Hsub; cbn [fold_left]; [exact Hcs|].
  apply IH.
  - apply collect_step_ok; [apply Hsub; left; reflexivity | exact Hcs].
  - intros it' Hit'; apply Hsub; right; exact Hit'.
Qed.

Lemma extract_vocab_buckets (corpus : list raw_record) (t : str) :
  let v := extract_vocab corpus in
  let st := collect_stats corpus in
  (mem t (io_type_vocab v) = true -> in_bucket st t BIo)
  /\ (mem t (vendor_vocab v) = true -> in_bucket st t BVendor)
  /\ (mem t (point_func_vocab v) = true -> in_bucket st t BPointFunc)
  /\ (mem t (subcomp_vocab v) = true -> in_bucket st t BSubcomp)
  /\ (mem t (equip_vocab v) = true -> in_bucket st t BEquip).
Proof.
  intros v st.
  destruct (collect_candidates_ok st) as (Hio & Hven & Hpf & Hsc & Heq).
  subst v; unfold extract_vocab; fold st.
  cbn [io_type_vocab vendor_vocab point_func_vocab subcomp_vocab equip_vocab].
  refine (conj _ (conj _ (conj _ (conj _ _)))); intros H;
    apply mem_In in H; rewrite sorted_strs_In in H.
  1: exact (Hio t H).
  1: exact (Hven t H).
  all: rewrite py_set_In in H; apply in_map_iff in H; destruct H as [[k s] [<- Hk]];
    first [ apply filter_In in Hk; destruct Hk as [Hk _]
          | apply In_firstn_In in Hk; rewrite sort_by_score_In in Hk ];
    first [ apply (Hpf k) | apply (Hsc k) | apply (Heq k) ];
    apply in_map_iff; exists (k, s); split; first [reflexivity | exact Hk].
Qed.

Lemma counter_incr_keys (c : counter) (x k : str) :
  In k (map fst (counter_incr c x)) -> k = x \/ In k (map fst c).
Proof.
  induction c as [|[k' v] c IH]; cbn [counter_incr map fst In].
  - intuition.
  - destruct (str_eqb x k'); cbn [map fst In]; intuition.
Qed.

Lemma counter_update_keys (c : counter) (xs : list str) (k : str) :
  In k (map fst (counter_update c xs)) -> In k (map fst c) \/ In k xs.
Proof.
  unfold counter_update; revert c; induction xs as [|x xs IH]; intros c H;
    cbn [fold_left In] in *; [tauto|].
  destruct (IH _ H) as [H1|H1]; [apply counter_incr_keys in H1; destruct H1 as [->|H1]|]; tauto.
Qed.

Lemma char_upper_idem (c : ascii) : char_upper (char_upper c) = char_upper c.
Proof.
  by_ascii (fun c => if ascii_dec (char_upper (char_upper c)) (char_upper c) then true else false) c.
  destruct (ascii_dec (char_upper (char_upper c)) (char_upper c)); [assumption | discriminate].
Qed.

Lemma upper_idem (s : str) : upper (upper s) = upper s.
Proof.
  unfold upper; rewrite map_map; apply map_ext, char_upper_idem.
Qed.

(** The keys of the token counter are case-folded. *)
Lemma token_counter_keys_upper (corpus : list raw_record) (t : str) :
  In t (map fst (token_counter (collect_stats corpus))) -> upper t = t.
Proof.
  unfold collect_stats.
  assert (H : forall rs st, (forall k, In k (map fst (token_counter st)) -> upper k = k) ->
                forall k, In k (map fst (token_counter (fold_left stats_step rs st))) -> upper k = k).
  { induction rs as [|r rs IH]; intros st Hst; cbn [fold_left]; [exact Hst|].
    apply IH; intros k Hk; unfold stats_step in Hk.
    destruct (tokenize (point_label r)); [exact (Hst k Hk)|].
    cbn [token_counter] in Hk; apply counter_update_keys in Hk.
    destruct Hk as [Hk|Hk]; [exact (Hst k Hk)|].
    apply in_map_iff in Hk; destruct Hk as [u [<- _]]; apply upper_idem. }
  apply H; intros k [].
Qed.

(** C9: for every corpus, no token is a member of more than one of the
    five output vocabularies (equip, subcomp, point_func, io_type,
    vendor): they are pairwise disjoint; and every member of each of them
    is case-folded. *)
Theorem extract_vocab_disjoint : forall (corpus : list raw_record) (t : str),
  let v := extract_vocab corpus in
  let vocabs5 := [equip_vocab v; subcomp_vocab v; point_func_vocab v;
                  io_type_vocab v; vendor_vocab v] in
  List.length (filter (fun l => mem t l) vocabs5) <= 1
  /\ (In t (List.concat vocabs5) -> upper t = t).
Proof.
  intros corpus t; cbv zeta.
  destruct (extract_vocab_buckets corpus t) as (Hio & Hven & Hpf & Hsc & Heq).
  set (v := extract_vocab corpus) in *.
  split.
  - cbn [filter].
    destruct (mem t (equip_vocab v)) eqn:E1, (mem t (subcomp_vocab v)) eqn:E2,
      (mem t (point_func_vocab v)) eqn:E3, (mem t (io_type_vocab v)) eqn:E4,
      (mem t (vendor_vocab v)) eqn:E5; cbn [List.length]; try lia;
      exfalso;
      repeat match goal with
             | H : true = true -> in_bucket _ _ _ |- _ => destruct (H eq_refl) as [_ ?]; clear H
             end; congruence.
  - intros H; apply (token_counter_keys_upper corpus).
    cbn [List.concat] in H; rewrite !in_app_iff in H.
    destruct H as [H|[H|[H|[H|[H|[]]]]]]; apply mem_In in H;
      first [ apply Hio in H | apply Hven in H | apply Hpf in H | apply Hsc in H | apply Heq in H ];
      exact (proj1 H).
Qed.

(** C2: on twelve records labelled "SIEMENS_AHU-01.SAT_AI_CMD", six in
    building B1 and six in building B2, the default thresholds put "AI" in
    io_type_vocab, "SIEMENS" in vendor_vocab, "AHU" in equip_vocab, "SAT"
    in subcomp_vocab and "CMD" in point_func_vocab. *)
Theorem extract_vocab_small_corpus :
  let v := extract_vocab corpus12 in
  In (s2l "AI") (io_type_vocab v) /\ In (s2l "SIEMENS") (vendor_vocab v)
  /\ In (s2l "AHU") (equip_vocab v) /\ In (s2l "SAT") (subcomp_vocab v)
  /\ In (s2l "CMD") (point_func_vocab v).
Proof.
  cbv zeta.
  assert (H : mem (s2l "AI") (io_type_vocab (extract_vocab corpus12))
              && mem (s2l "SIEMENS") (vendor_vocab (extract_vocab corpus12))
              && mem (s2l "AHU") (equip_vocab (extract_vocab corpus12))
              && mem (s2l "SAT") (subcomp_vocab (extract_vocab corpus12))
              && mem (s2l "CMD") (point_func_vocab (extract_vocab corpus12)) = true)
    by (vm_compute; reflexivity).
  repeat rewrite andb_true_iff in H.
  destruct H as [[[[H1 H2] H3] H4] H5].
  apply mem_In in H1, H2, H3, H4, H5; tauto.
Qed.

Lemma collect_equip_keys (st : corpus_stats) (items : list (str * nat)) (cs : candidates) (t : str) :
  In t (map fst (equip_candidates (fold_left (collect_step st) items cs)))
  <-> In t (map fst (equip_candidates cs))
      \/ (In t (map fst items) /\ candidate_bucket t st = Some BEquip).
Proof.
  revert cs; induction items as [|[t' f] items IH]; intros cs; cbn [fold_left map fst In].
  { tauto. }
  rewrite IH; destruct cs as [io ven pf sc eq]; unfold collect_step.
  destruct (candidate_bucket t' st) as [[]|] eqn:Eb; cbn [equip_candidates];
    try rewrite dict_set_keys;
    split; intros H; decompose [and or] H; clear H; subst; intuition congruence.
Qed.

Lemma equip_candidates_iff (st : corpus_stats) (t : str) :
  In t (map fst (equip_candidates (collect_candidates st)))
  <-> In t (map fst (token_counter st)) /\ candidate_bucket t st = Some BEquip.
Proof.
  unfold collect_candidates; rewrite collect_equip_keys; cbn; tauto.
Qed.

(** C5: for a case-folded corpus token outside the equipment blacklist and
    seed set that the earlier cascade steps (IO type, vendor, point
    function, subcomponent) do not claim, the token is an equipment
    candidate iff it passes the global thresholds, is alphabetic, upper
    case, of length 2 to 6 and not an equipment stopword; its
    numeric-succession count plays no part. *)
Theorem equip_candidate_gate (corpus : list raw_record) (t : str) :
  let st := collect_stats corpus in
  In t (map fst (token_counter st)) ->
  ~ In t EQUIP_BLACKLIST -> ~ In t SEED_EQUIP ->
  is_io_type t = false -> is_vendor t = false ->
  likely_point_func t st = false -> likely_subcomponent t st = false ->
  (In t (map fst (equip_candidates (collect_candidates st)))
   <-> passes_global_thresholds t st = true /\ isalpha t = true /\ isupper t = true
       /\ 2 <= List.length t <= 6 /\ ~ In t EQUIP_STOPWORDS).
Proof.
  intros st Hin Hbl Hseed Hio Hven Hpf Hsc.
  rewrite equip_candidates_iff.
  unfold candidate_bucket; rewrite Hio, Hven, Hpf, Hsc.
  unfold likely_equip.
  rewrite (proj2 (mem_false_not_In _ _) Hbl), (proj2 (mem_false_not_In _ _) Hseed).
  cbn [andb negb].
  destruct (passes_global_thresholds t st); cbn [negb];
    [| split; [intros [_ H]; discriminate | intros [H _]; discriminate]].
  destruct (isalpha t); cbn [negb];
    [| split; [intros [_ H]; discriminate | intros [_ [H _]]; discriminate]].
  destruct (isupper t); cbn [negb];
    [| split; [intros [_ H]; discriminate | intros [_ [_ [H _]]]; discriminate]].
  destruct (2 <=? List.length t) eqn:E1, (List.length t <=? 6) eqn:E2; cbn [andb negb];
    rewrite ?Nat.leb_le, ?Nat.leb_gt in *;
    try (split; [intros [_ H]; discriminate | intros [_ [_ [_ [H _]]]]; lia]).
  destruct (mem t EQUIP_STOPWORDS) eqn:E3.
  - apply mem_In in E3; split; [intros [_ H]; discriminate | intros (_ & _ & _ & _ & H); contradiction].
  - apply mem_false_not_In in E3.
    destruct (MIN_EQUIP_NUMID_BIGRAM <=? counter_get (token_numid_bigram st) t);
      split; intros; repeat split; auto; lia.
Qed.

Lemma equip_candidate_gate_witness :
  In (s2l "VLV") (map fst (equip_candidates (collect_candidates (collect_stats corpus_vlv)))).
Proof.
  apply (equip_candidate_gate corpus_vlv (s2l "VLV"));
    try (apply mem_In; vm_compute; reflexivity);
    try (apply mem_false_not_In; vm_compute; reflexivity);
    try (vm_compute; reflexivity).
  refine (conj _ (conj _ (conj _ (conj _ _)))); try (vm_compute; reflexivity).
  - cbn; lia.
  - apply mem_false_not_In; vm_compute; reflexivity.
Defined.

(* ----------------------------------------------------------------- *)
(** *** Corpus statistics lemmas *)

Lemma str_eqb_sym (a b : str) : str_eqb a b = str_eqb b a.
Proof.
  destruct (str_eqb a b) eqn:E1, (str_eqb b a) eqn:E2; try reflexivity.
  - apply str_eqb_true in E1; subst; rewrite str_eqb_refl in E2; discriminate.
  - apply str_eqb_true in E2; subst; rewrite str_eqb_refl in E1; discriminate.
Qed.

Lemma str_eqb_dec (a b : str) :
  str_eqb a b = if list_eq_dec ascii_dec b a then true else false.
Proof.
  rewrite str_eqb_sym; reflexivity.
Qed.

Lemma counter_get_incr (c : counter) (k t : str) :
  counter_get (counter_incr c k) t = counter_get c t + (if str_eqb t k then 1 else 0).
Proof.
  induction c as [|[k' v] c IH]; cbn [counter_incr counter_get].
  - destruct (str_eqb t k); reflexivity.
  - destruct (str_eqb k k') eqn:E1; cbn [counter_get].
    + apply str_eqb_true in E1; subst k'; destruct (str_eqb t k); lia.
    + destruct (str_eqb t k') eqn:E2; [|exact IH].
      apply str_eqb_true in E2; subst k'; rewrite str_eqb_sym, E1; lia.
Qed.

Lemma counter_update_get (c : counter) (xs : list str) (t : str) :
  counter_get (counter_update c xs) t
  = counter_get c t + count_occ (list_eq_dec ascii_dec) xs t.
Proof.
  unfold counter_update; revert c; induction xs as [|x xs IH]; intros c; cbn [fold_left count_occ].
  - lia.
  - rewrite IH, counter_get_incr, str_eqb_dec.
    destruct (list_eq_dec ascii_dec x t); lia.
Qed.

Lemma set_map_get_add (m : set_map) (k x t : str) :
  set_map_get (set_map_add m k x) t
  = if str_eqb t k then set_add x (set_map_get m t) else set_map_get m t.
Proof.
  induction m as [|[k' v] m IH]; cbn [set_map_add set_map_get].
  - destruct (str_eqb t k); reflexivity.
  - destruct (str_eqb k k') eqn:E1; cbn [set_map_get].
    + apply str_eqb_true in E1; subst k'; destruct (str_eqb t k); reflexivity.
    + destruct (str_eqb t k') eqn:E2; [|exact IH].
      apply str_eqb_true in E2; subst k'; rewrite str_eqb_sym, E1; reflexivity.
Qed.

Lemma NoDup_snoc (xs : list str) (x : str) : NoDup xs -> ~ In x xs -> NoDup (xs ++ [x]).
Proof.
  induction xs as [|y xs IH]; cbn [app In]; intros Hd Hn.
  - constructor; [intros []|constructor].
  - inversion Hd as [|? ? Hy Hxs]; subst.
    constructor; [rewrite in_app_iff; cbn [In]; intuition | apply IH; auto].
Qed.

Lemma set_add_NoDup (x : str) (xs : list str) : NoDup xs -> NoDup (set_add x xs).
Proof.
  unfold set_add; destruct (mem x xs) eqn:E; intros Hd; [exact Hd|].
  apply NoDup_snoc; [exact Hd | apply mem_false_not_In, E].
Qed.

Lemma buildings_fold (L : list str) (bl : str) (m : set_map) (t b : str) :
  (In b (set_map_get (fold_left (fun m t' => set_map_add m t' bl) L m) t)
   <-> In b (set_map_get m t) \/ (In t L /\ b = bl))
  /\ (NoDup (set_map_get m t) ->
      NoDup (set_map_get (fold_left (fun m t' => set_map_add m t' bl) L m) t)).
Proof.
  revert m; induction L as [|x L IH]; intros m; cbn [fold_left In]; [tauto|].
  destruct (IH (set_map_add m x bl)) as [IH1 IH2]; rewrite IH1, set_map_get_add.
  split.
  - destruct (str_eqb t x) eqn:E.
    + apply str_eqb_true in E; subst x; rewrite set_add_In; intuition.
    + assert (t <> x) by (intros ->; rewrite str_eqb_refl in E; discriminate).
      intuition congruence.
  - intros Hd; apply IH2; rewrite set_map_get_add.
    destruct (str_eqb t x); [apply set_add_NoDup|]; exact Hd.
Qed.

Lemma numid_fold (prs : list (str * str)) (c : counter) (t : str) :
  counter_get (fold_left numid_step prs c) t
  = counter_get c t
    + List.length (filter (fun pr => str_eqb (upper (fst pr)) t && isdigit (snd pr)) prs).
Proof.
  revert c; induction prs as [|[a b] prs IH]; intros c; cbn [fold_left filter fst snd].
  - cbn [List.length]; lia.
  - rewrite IH; unfold numid_step.
    destruct (isdigit b); rewrite ?andb_true_r, ?andb_false_r.
    + rewrite counter_get_incr, str_eqb_sym; destruct (str_eqb (upper a) t); cbn [List.length]; lia.
    + reflexivity.
Qed.

Lemma stats_step_fields (st : corpus_stats) (r : raw_record) (t b : str) :
  counter_get (token_counter (stats_step st r)) t
    = counter_get (token_counter st) t
      + count_occ (list_eq_dec ascii_dec) (record_tokens_upper r) t
  /\ (In b (set_map_get (token_buildings (stats_step st r)) t)
      <-> In b (set_map_get (token_buildings st) t)
          \/ (In t (record_tokens_upper r) /\ b = building_id r))
  /\ (NoDup (set_map_get (token_buildings st) t) ->
      NoDup (set_map_get (token_buildings (stats_step st r)) t))
  /\ counter_get (token_numid_bigram (stats_step st r)) t
     = counter_get (token_numid_bigram st) t
       + List.length (filter (fun pr => str_eqb (upper (fst pr)) t && isdigit (snd pr))
                             (adjacent_pairs (tokenize (point_label r)))).
Proof.
  unfold stats_step, record_tokens_upper.
  destruct (tokenize (point_label r)) as [|x xs] eqn:Et.
  - cbn; repeat split; try lia; tauto.
  - destruct (buildings_fold (py_set (map upper (x :: xs))) (building_id r)
                             (token_buildings st) t b) as [Hb Hnd].
    cbn [token_counter token_buildings token_numid_bigram].
    rewrite counter_update_get, numid_fold, Hb, py_set_In.
    repeat split; auto.
Qed.

Lemma stats_fold_fields (rs : list raw_record) (st : corpus_stats) (t b : str) :
  counter_get (token_counter (fold_left stats_step rs st)) t
    = counter_get (token_counter st) t
      + count_occ (list_eq_dec ascii_dec) (List.concat (map record_tokens_upper rs)) t
  /\ (In b (set_map_get (token_buildings (fold_left stats_step rs st)) t)
      <-> In b (set_map_get (token_buildings st) t)
          \/ (exists r, In r rs /\ building_id r = b /\ In t (record_tokens_upper r)))
  /\ (NoDup (set_map_get (token_buildings st) t) ->
      NoDup (set_map_get (token_buildings (fold_left stats_step rs st)) t))
  /\ counter_get (token_numid_bigram (fold_left stats_step rs st)) t
     = counter_get (token_numid_bigram st) t
       + List.length (filter (fun pr => str_eqb (upper (fst pr)) t && isdigit (snd pr))
           (List.concat (map (fun r => adjacent_pairs (tokenize (point_label r))) rs))).
Proof.
  revert st; induction rs as [|r rs IH]; intros st; cbn [fold_left map List.concat].
  - cbn [count_occ filter List.length]; repeat split; try lia; auto.
    intros [H|(r & Hr & _)]; [exact H | destruct Hr].
  - destruct (IH (stats_step st r)) as (Hc & Hb & Hnd & Hn).
    destruct (stats_step_fields st r t b) as (Hc1 & Hb1 & Hnd1 & Hn1).
    rewrite Hc, Hc1, Hn, Hn1, Hb, Hb1, count_occ_app, filter_app, length_app.
    repeat split; try lia; auto.
    + rewrite Nat.add_assoc; reflexivity.
    + intros [[H|[H ->]]|(r' & Hr' & <- & H)].
      * left; exact H.
      * right; exists r; split; [left; reflexivity | split; [reflexivity | exact H]].
      * right; exists r'; split; [right; exact Hr' | split; [reflexivity | exact H]].
    + intros [H|(r' & [->|Hr'] & <- & H)].
      * left; left; exact H.
      * left; right; split; [exact H | reflexivity].
      * right; exists r'; split; [exact Hr' | split; [reflexivity | exact H]].
Qed.

(** Claim C6 (as stated) fails: for the label ["AHU\xb2"] (the superscript
    two, code point 178) the tokens are ["AHU"] and ["\xb2"]; [str.isdigit]
    holds of ["\xb2"], so the code counts one numeric succession for ["AHU"],
    although ["\xb2"] is not made of decimal digits 0-9. *)
Lemma collect_stats_spec_counterexample :
  let corpus := [RawRecord (s2l "AHU" ++ [ascii_of_nat 178]) (s2l "B1")] in
  counter_get (token_numid_bigram (collect_stats corpus)) (s2l "AHU")
  <> List.length (filter (fun pr => str_eqb (upper (fst pr)) (s2l "AHU") && claimed_numeric (snd pr))
       (List.concat (map (fun r => adjacent_pairs (tokenize (point_label r))) corpus))).
Proof. vm_compute. discriminate. Qed.

(** Claim C6 (amended): the statistics collected from a corpus give, for
    every case-folded token [t]: its frequency, the number of occurrences of
    [t] among the case-folded tokens of all records, repeats within a record
    included; its building support, the duplicate-free list of the building
    ids of the records that contain [t]; and its numeric-succession count,
    the number of adjacent pairs of (original-case) tokens of a record whose
    first token case-folds to [t] and whose second token satisfies
    [str.isdigit()]: non-empty and made of digit characters, which besides
    0-9 include the superscripts \xb9 \xb2 \xb3. *)
Theorem collect_stats_spec : forall (corpus : list raw_record) (t : str),
  let st := collect_stats corpus in
  counter_get (token_counter st) t
    = count_occ (list_eq_dec ascii_dec) (List.concat (map record_tokens_upper corpus)) t
  /\ (forall b, In b (set_map_get (token_buildings st) t)
        <-> exists r, In r corpus /\ building_id r = b /\ In t (record_tokens_upper r))
  /\ NoDup (set_map_get (token_buildings st) t)
  /\ counter_get (token_numid_bigram st) t
     = List.length (filter (fun pr => str_eqb (upper (fst pr)) t && isdigit (snd pr))
         (List.concat (map (fun r => adjacent_pairs (tokenize (point_label r))) corpus))).
Proof.
  intros corpus t; cbv zeta; unfold collect_stats.
  destruct (stats_fold_fields corpus stats_init t (s2l "")) as (Hc & _ & Hnd & Hn).
  rewrite Hc, Hn; cbn [stats_init token_counter token_buildings token_numid_bigram
                       counter_get set_map_get].
  repeat split.
  - intros H; apply (stats_fold_fields corpus stats_init t b) in H.
    destruct H as [[]|H]; exact H.
  - intros H; apply (stats_fold_fields corpus stats_init t b); right; exact H.
  - apply Hnd; constructor.
Qed.

(* ================================================================= *)
(** * Further properties of the code *)

(* ----------------------------------------------------------------- *)
(** *** Tokenizer: characters kept, case, separators *)

Lemma filter_all_true {A} (f : A -> bool) (l : list A) :
  forallb f l = true -> filter f l = l.
Proof.
  induction l as [|a l IH]; simpl; [reflexivity|].
  intros H; apply andb_prop in H; destruct H as [Ha Hl]; rewrite Ha, IH by exact Hl; reflexivity.
Qed.

Lemma filter_filter_and {A} (f g : A -> bool) (l : list A) :
  filter g (filter f l) = filter (fun x => f x && g x) l.
Proof.
  induction l as [|a l IH]; simpl; [reflexivity|].
  destruct (f a); simpl; [destruct (g a)|]; rewrite ?IH; reflexivity.
Qed.

Lemma concat_flat_map {A B} (g : A -> list (list B)) (l : list A) :
  List.concat (flat_map g l) = flat_map (fun x => List.concat (g x)) l.
Proof.
  induction l as [|a l IH]; simpl; [reflexivity|]; rewrite concat_app, IH; reflexivity.
Qed.

Lemma flat_map_filter_concat {A} (f : A -> bool) (l : list (list A)) :
  flat_map (filter f) l = filter f (List.concat l).
Proof.
  induction l as [|a l IH]; simpl; [reflexivity|]; rewrite filter_app, IH; reflexivity.
Qed.

Lemma findall_concat (s run : str) : List.concat (findall_aux run s) = rev run ++ s.
Proof.
  revert run; induction s as [|c s IH]; intros run.
  - destruct run as [|r rs]; simpl; rewrite ?app_nil_r; reflexivity.
  - destruct run as [|r rs]; cbn [findall_aux].
    + destruct (is_alnum c); simpl; rewrite IH; reflexivity.
    + destruct (same_run_class r c).
      * rewrite IH; simpl; rewrite <- !app_assoc; reflexivity.
      * destruct (is_alnum c); cbn [List.concat]; rewrite ?IH; simpl;
          rewrite <- ?app_assoc; reflexivity.
Qed.

Definition not_space (c : ascii) : bool := negb (is_py_space c).

Lemma letter_digit_not_space (c : ascii) :
  (is_letter c = true -> is_py_space c = false) /\ (is_digit c = true -> is_py_space c = false).
Proof.
  by_ascii (fun c => (negb (is_letter c) || negb (is_py_space c))
                     && (negb (is_digit c) || negb (is_py_space c))) c.
  destruct (is_letter c), (is_digit c), (is_py_space c); easy.
Qed.

Lemma homogeneous_space_split (p : str) :
  homogeneous p = true -> forallb not_space p = true \/ forallb is_py_space p = true.
Proof.
  unfold homogeneous; intros H.
  apply orb_prop in H; destruct H as [H|H]; [apply orb_prop in H; destruct H as [H|H]|].
  - left; rewrite forallb_forall in *; intros c Hc; unfold not_space.
    rewrite (proj1 (letter_digit_not_space c) (H c Hc)); reflexivity.
  - left; rewrite forallb_forall in *; intros c Hc; unfold not_space.
    rewrite (proj2 (letter_digit_not_space c) (H c Hc)); reflexivity.
  - destruct p as [|c [|d p]]; try discriminate; simpl.
    unfold not_space; destruct (is_py_space c); auto.
Qed.

Lemma filter_blank (x : str) : nonblank x = false -> filter not_space x = [].
Proof.
  induction x as [|a x IH]; simpl; [reflexivity|].
  intros H; apply orb_false_elim in H; destruct H as [Ha Hx].
  unfold not_space at 1; rewrite Ha; apply IH, Hx.
Qed.

Lemma nonblank_not_all_space (x : str) : nonblank x = true -> forallb is_py_space x = false.
Proof.
  induction x as [|a x IH]; simpl; [discriminate|].
  destruct (is_py_space a); simpl; [exact IH | reflexivity].
Qed.

Lemma concat_filter_nonblank_homog (l : list str) :
  (forall x, In x l -> forallb not_space x = true \/ forallb is_py_space x = true) ->
  List.concat (filter nonblank l) = filter not_space (List.concat l).
Proof.
  induction l as [|a l IH]; simpl; [reflexivity|]. intros H.
  rewrite filter_app, <- IH by auto.
  destruct (nonblank a) eqn:En; cbn [List.concat].
  - destruct (H a (or_introl eq_refl)) as [Ha|Ha].
    + rewrite (filter_all_true not_space a Ha); reflexivity.
    + rewrite nonblank_not_all_space in Ha by exact En; discriminate.
  - rewrite (filter_blank a En); reflexivity.
Qed.

Lemma filter_concat_nonblank (l : list str) :
  filter not_space (List.concat (filter nonblank l)) = filter not_space (List.concat l).
Proof.
  induction l as [|a l IH]; simpl; [reflexivity|].
  destruct (nonblank a) eqn:E; simpl; rewrite !filter_app, IH; [reflexivity|].
  rewrite (filter_blank a E); reflexivity.
Qed.

(** The case mapping keeps every character class the tokenizer looks at. *)
Lemma char_upper_classes (c : ascii) :
  is_delim (char_upper c) = is_delim c /\ is_py_space (char_upper c) = is_py_space c
  /\ is_letter (char_upper c) = is_letter c /\ is_digit (char_upper c) = is_digit c.
Proof.
  by_ascii (fun c => Bool.eqb (is_delim (char_upper c)) (is_delim c)
                     && Bool.eqb (is_py_space (char_upper c)) (is_py_space c)
                     && Bool.eqb (is_letter (char_upper c)) (is_letter c)
                     && Bool.eqb (is_digit (char_upper c)) (is_digit c)) c.
  repeat rewrite andb_true_iff in *; destruct H as [[[H1 H2] H3] H4].
  apply Bool.eqb_prop in H1, H2, H3, H4; auto.
Qed.

Lemma delim_split_upper (s cur : str) (b : bool) :
  delim_split_aux (map char_upper cur) b (map char_upper s)
  = map upper (delim_split_aux cur b s).
Proof.
  revert cur b; induction s as [|c s IH]; intros cur b; cbn [map delim_split_aux].
  - unfold upper; rewrite map_rev; reflexivity.
  - destruct (char_upper_classes c) as (Hd & _ & _ & _); rewrite Hd.
    destruct (is_delim c); [destruct b|].
    + apply IH.
    + cbn [map]; unfold upper at 1; rewrite map_rev; f_equal; apply (IH []).
    + apply (IH (c :: cur)).
Qed.

Lemma nonblank_upper (x : str) : nonblank (upper x) = nonblank x.
Proof.
  induction x as [|a x IH]; simpl; [reflexivity|].
  destruct (char_upper_classes a) as (_ & Hs & _ & _); rewrite Hs; f_equal; exact IH.
Qed.

Lemma filter_nonblank_upper (l : list str) :
  filter nonblank (map upper l) = map upper (filter nonblank l).
Proof.
  induction l as [|a l IH]; simpl; [reflexivity|].
  rewrite nonblank_upper; destruct (nonblank a); simpl; rewrite IH; reflexivity.
Qed.

Lemma findall_upper (s run : str) :
  findall_aux (map char_upper run) (map char_upper s) = map upper (findall_aux run s).
Proof.
  assert (Hsr : forall a b, same_run_class (char_upper a) (char_upper b) = same_run_class a b).
  { intros a b; unfold same_run_class.
    destruct (char_upper_classes a) as (_ & _ & -> & ->);
    destruct (char_upper_classes b) as (_ & _ & -> & ->); reflexivity. }
  assert (Hal : forall a, is_alnum (char_upper a) = is_alnum a).
  { intros a; unfold is_alnum; destruct (char_upper_classes a) as (_ & _ & -> & ->); reflexivity. }
  revert run; induction s as [|c s IH]; intros run.
  - destruct run as [|r rs]; cbn [map findall_aux]; [reflexivity|].
    unfold upper; rewrite map_rev; reflexivity.
  - destruct run as [|r rs]; cbn [map findall_aux]; rewrite ?Hsr, Hal.
    + destruct (is_alnum c); [apply (IH [c])|].
      cbn [map]; f_equal; apply (IH []).
    + destruct (same_run_class r c); [apply (IH (c :: r :: rs))|].
      cbn [map]; unfold upper at 1; rewrite map_rev; f_equal.
      destruct (is_alnum c); [apply (IH [c])|].
      cbn [map]; f_equal; apply (IH []).
Qed.

(** How [DELIM_RE.split] treats one separator between two parts. *)
Lemma delim_split_app (a b cur : str) (fl : bool) (d : ascii) :
  is_delim d = true -> (fl = true -> cur = []) ->
  filter nonblank (delim_split_aux cur fl (a ++ d :: b))
  = filter nonblank (delim_split_aux cur fl a)
    ++ filter nonblank (delim_split_aux [] true b).
Proof.
  intros Hd; revert cur fl; induction a as [|c a IH]; intros cur fl Hfl; cbn [app delim_split_aux].
  - rewrite Hd; destruct fl.
    + rewrite (Hfl eq_refl); reflexivity.
    + cbn [filter]; destruct (nonblank (rev cur)); reflexivity.
  - destruct (is_delim c); [destruct fl|].
    + apply IH; exact Hfl.
    + cbn [filter]; destruct (nonblank (rev cur)); cbn [app]; rewrite IH by reflexivity; reflexivity.
    + apply IH; discriminate.
Qed.

Lemma delim_split_run_start (b : str) :
  filter nonblank (delim_split_aux [] true b) = filter nonblank (delim_split b).
Proof.
  unfold delim_split; destruct b as [|c b]; cbn [delim_split_aux]; [reflexivity|].
  destruct (is_delim c); reflexivity.
Qed.

Lemma tokenize_map_upper (label : str) :
  tokenize (upper label) = map upper (tokenize label).
Proof.
  unfold tokenize, delim_split.
  pose proof (delim_split_upper label [] false) as H; cbn [map] in H.
  change (upper label) with (map char_upper label); rewrite H, filter_nonblank_upper.
  generalize (filter nonblank (delim_split_aux [] false label)) as L.
  induction L as [|a L IHL]; simpl; [reflexivity|]. rewrite map_app, IHL; f_equal.
  unfold split_alpha_num, findall_alpha_num.
  pose proof (findall_upper a []) as Ha; cbn [map] in Ha.
  change (upper a) with (map char_upper a); rewrite Ha; apply filter_nonblank_upper.
Qed.

(** Extra (tokenizer): for a label of ASCII characters, [tokenize] commutes
    with upper-casing: the tokens of [label.upper()] are the upper-cased
    tokens of [label]. *)
Theorem tokenize_upper (label : str) :
  forallb (fun c => nat_of_ascii c <? 128) label = true ->
  tokenize (upper label) = map upper (tokenize label).
Proof. intros _; apply tokenize_map_upper. Qed.

Lemma tokenize_upper_witness :
  forallb (fun c => nat_of_ascii c <? 128) (s2l "AHU-03.SAT_ai") = true
  /\ tokenize (upper (s2l "AHU-03.SAT_ai")) = map upper (tokenize (s2l "AHU-03.SAT_ai")).
Proof. split; [reflexivity | apply (tokenize_upper (s2l "AHU-03.SAT_ai")); reflexivity]. Defined.

(** Extra (tokenizer): joining the tokens of a label gives back the label
    with every separator ([_ . - / \ :]) and every whitespace character
    ([str.isspace()]: \t \n \x0b \x0c \r, \x1c-\x1f, space, \x85, \xa0)
    removed, and nothing else: no other character is lost, duplicated or
    reordered. *)
Theorem tokenize_concat (label : str) :
  List.concat (tokenize label)
  = filter (fun c => negb (is_delim c) && negb (is_py_space c)) label.
Proof.
  assert (Hx : forall x, List.concat (split_alpha_num x) = filter not_space x).
  { intros x; unfold split_alpha_num, findall_alpha_num.
    rewrite concat_filter_nonblank_homog, findall_concat; [reflexivity|].
    intros p Hp; apply homogeneous_space_split, (findall_aux_homogeneous x []);
      [reflexivity | exact Hp]. }
  unfold tokenize; cbv zeta; rewrite (concat_flat_map (A:=str) (B:=ascii)), (flat_map_ext _ _ Hx).
  rewrite (flat_map_filter_concat (A:=ascii) not_space), filter_concat_nonblank; unfold delim_split.
  rewrite delim_split_concat; cbn [rev app]; rewrite filter_filter_and; reflexivity.
Qed.

Lemma tokenize_sep (a b : str) (d : ascii) :
  is_delim d = true -> tokenize (a ++ d :: b) = tokenize a ++ tokenize b.
Proof.
  intros Hd; unfold tokenize, delim_split.
  rewrite (delim_split_app a b [] false d Hd) by discriminate.
  rewrite delim_split_run_start, flat_map_app; reflexivity.
Qed.

(** Extra (tokenizer): a separator character splits the label into two
    independent halves: the tokens of [a ++ d :: b] are the tokens of [a]
    followed by the tokens of [b]. *)
Theorem tokenize_app_delim (a b : str) (d : ascii) :
  is_delim d = true -> tokenize (a ++ d :: b) = tokenize a ++ tokenize b.
Proof. apply tokenize_sep. Qed.

Lemma tokenize_app_delim_witness :
  is_delim "."%char = true
  /\ tokenize (s2l "AHU-03" ++ "."%char :: s2l "SAT_AI")
     = tokenize (s2l "AHU-03") ++ tokenize (s2l "SAT_AI").
Proof.
  split; [reflexivity|].
  apply (tokenize_app_delim (s2l "AHU-03") (s2l "SAT_AI") "."%char); reflexivity.
Defined.

(* ----------------------------------------------------------------- *)
(** *** Labeler: case and character classes *)

Lemma existsb_ext' {A} (f g : A -> bool) (l : list A) :
  (forall x, f x = g x) -> existsb f l = existsb g l.
Proof. intros H; induction l as [|a l IH]; simpl; [reflexivity|]; rewrite H, IH; reflexivity. Qed.

Lemma forallb_map_ext {A B} (f : B -> bool) (g : A -> B) (h : A -> bool) (l : list A) :
  (forall x, f (g x) = h x) -> forallb f (map g l) = forallb h l.
Proof. intros H; induction l as [|a l IH]; simpl; [reflexivity|]; rewrite H, IH; reflexivity. Qed.

Lemma removelast_map {A B} (f : A -> B) (l : list A) :
  removelast (map f l) = map f (removelast l).
Proof.
  induction l as [|a l IH]; [reflexivity|].
  destruct l as [|b l]; [reflexivity|].
  cbn [map removelast] in *; rewrite IH; reflexivity.
Qed.

(** With [re.I] a class matches a character exactly when it matches its
    upper-case form. *)
Lemma cls_match_upper (k : cls) (c : ascii) :
  cls_match true k (char_upper c) = cls_match true k c.
Proof.
  by_ascii (fun c => (Ascii.eqb (char_upper c) c || Ascii.eqb (char_lower c) c)
                     && Ascii.eqb (char_lower (char_upper c)) (char_lower c)
                     && Ascii.eqb (char_upper (char_upper c)) (char_upper c)) c.
  rewrite !andb_true_iff, orb_true_iff, !Ascii.eqb_eq in H.
  destruct H as [[[E|E] E1] E2]; unfold cls_match; cbn [andb]; rewrite E1, E2.
  - rewrite E; reflexivity.
  - rewrite E; destruct (cls_match_cs k c), (cls_match_cs k (char_upper c)); reflexivity.
Qed.

Lemma match_pieces_upper (ps : list piece) (s : str) :
  match_pieces true ps (upper s) = match_pieces true ps s.
Proof.
  revert s; induction ps as [|[k lo hi] ps IH]; intros s.
  - destruct s; reflexivity.
  - cbn [match_pieces]; unfold upper; rewrite length_map.
    apply existsb_ext'; intros n.
    rewrite firstn_map, skipn_map.
    rewrite (forallb_map_ext (cls_match true k) char_upper (cls_match true k))
      by (intros x; apply cls_match_upper).
    f_equal; apply IH.
Qed.

Lemma re_match_upper (p : pattern) (s : str) :
  pat_icase p = true -> re_match p (upper s) = re_match p s.
Proof.
  destruct p as [ps ic]; cbn [pat_icase]; intros ->; unfold re_match; cbn [pat_icase pat_pieces].
  rewrite match_pieces_upper; f_equal.
  unfold upper; rewrite <- map_rev, removelast_map.
  destruct (rev s) as [|x r]; [reflexivity|]; cbn [map].
  fold (upper (removelast s)); rewrite match_pieces_upper; f_equal.
  by_ascii (fun c => Bool.eqb (Ascii.eqb (char_upper c) "010") (Ascii.eqb c "010")) x.
  apply Bool.eqb_prop; exact H.
Qed.

Lemma any_match_upper (pats : list pattern) (s : str) :
  forallb pat_icase pats = true -> any_match pats (upper s) = any_match pats s.
Proof.
  unfold any_match; induction pats as [|p pats IH]; simpl; [reflexivity|].
  intros H; apply andb_prop in H; destruct H as [Hp Hps].
  rewrite re_match_upper, IH by assumption; reflexivity.
Qed.

Lemma equip_id_needs_digit (s : str) :
  any_match EQUIP_ID_PATTERNS s = true -> exists c, In c s /\ is_digit c = true.
Proof.
  unfold any_match, EQUIP_ID_PATTERNS; cbn [existsb]; rewrite orb_false_r; intros H.
  apply orb_prop in H; destruct H as [H|H].
  - destruct (re_match_witness _ _ CDigit 1 None H ltac:(simpl; tauto) ltac:(lia))
      as [c [Hc Hk]].
    exists c; split; [exact Hc|]; cbn [pat_icase] in Hk; unfold cls_match in Hk;
    cbn [andb cls_match_cs] in Hk; rewrite orb_false_r in Hk; exact Hk.
  - destruct (re_match_witness _ _ CDigit 2 (Some 3) H ltac:(simpl; tauto) ltac:(lia))
      as [c [Hc Hk]].
    exists c; split; [exact Hc|]; cbn [pat_icase] in Hk; unfold cls_match in Hk;
    cbn [andb cls_match_cs] in Hk; rewrite orb_false_r in Hk; exact Hk.
Qed.

Lemma homogeneous_digit (s : str) (c : ascii) :
  homogeneous s = true -> In c s -> is_digit c = true -> forallb is_digit s = true.
Proof.
  unfold homogeneous; intros H Hc Hd.
  apply orb_prop in H; destruct H as [H|H]; [apply orb_prop in H; destruct H as [H|H]|].
  - rewrite forallb_forall in H; pose proof (letter_not_digit c) as E.
    rewrite (H c Hc), Hd in E; discriminate.
  - exact H.
  - destruct s as [|a [|b s]]; try discriminate; destruct Hc as [<-|[]]; simpl; rewrite Hd; reflexivity.
Qed.

Lemma char_upper_digit (c : ascii) : is_digit c = true -> char_upper c = c.
Proof.
  by_ascii (fun c => negb (is_digit c) || Ascii.eqb (char_upper c) c) c.
  intros Hd; rewrite Hd in H; apply Ascii.eqb_eq; exact H.
Qed.

Lemma upper_digits (s : str) : forallb is_digit s = true -> upper s = s.
Proof.
  induction s as [|a s IH]; simpl; [reflexivity|].
  intros H; apply andb_prop in H; destruct H as [Ha Hs].
  rewrite char_upper_digit by exact Ha; f_equal; apply IH, Hs.
Qed.

(** The case-sensitive [EQUIP_ID_PATTERNS] cannot tell a token from its
    upper-case form when the token is a letter run, a digit run or a single
    character. *)
Lemma equip_id_upper (s : str) :
  homogeneous s = true -> any_match EQUIP_ID_PATTERNS (upper s) = any_match EQUIP_ID_PATTERNS s.
Proof.
  intros Hh; destruct (any_match EQUIP_ID_PATTERNS s) eqn:E.
  - destruct (equip_id_needs_digit s E) as [c [Hc Hd]].
    rewrite upper_digits by exact (homogeneous_digit s c Hh Hc Hd); exact E.
  - apply not_true_iff_false; intros E2.
    destruct (equip_id_needs_digit _ E2) as [c [Hc Hd]].
    unfold upper in Hc; apply in_map_iff in Hc; destruct Hc as [c0 [<- Hc0]].
    destruct (char_upper_classes c0) as (_ & _ & _ & Hdc); rewrite Hdc in Hd.
    rewrite upper_digits in E2 by exact (homogeneous_digit s c0 Hh Hc0 Hd).
    congruence.
Qed.

Lemma label_token_upper (tok : str) (vs : vocabs) :
  homogeneous tok = true -> label_token (upper tok) vs = label_token tok vs.
Proof.
  intros Hh; unfold label_token; cbv zeta.
  rewrite upper_idem, (any_match_upper FLOOR_PATTERNS) by reflexivity.
  rewrite (any_match_upper ROOM_PATTERNS) by reflexivity.
  rewrite (any_match_upper BUILDING_HINT_PATTERNS) by reflexivity.
  rewrite equip_id_upper by exact Hh; reflexivity.
Qed.

Lemma re_match_no_newline (p : pattern) (s : str) :
  ~ In "010"%char s -> re_match p s = match_pieces (pat_icase p) (pat_pieces p) s.
Proof.
  unfold re_match; intros Hn.
  destruct (rev s) as [|x r] eqn:Er; [apply orb_false_r|].
  assert (Hx : In x s) by (apply in_rev; rewrite Er; left; reflexivity).
  destruct (Ascii.eqb_spec x "010"%char) as [->|Hne]; [contradiction|].
  rewrite andb_false_l, orb_false_r; reflexivity.
Qed.

Lemma match_pieces_one (ic : bool) (k : cls) (ps : list piece) (c : ascii) (s : str) :
  match_pieces ic (one k :: ps) (c :: s) = cls_match ic k c && match_pieces ic ps s.
Proof.
  unfold one; cbn [match_pieces]; cbn [List.length Nat.min seq Nat.sub existsb firstn skipn forallb].
  destruct (cls_match ic k c), (match_pieces ic ps s); reflexivity.
Qed.

(** A piece that must consume a digit never matches a letter run. *)
Lemma letters_digit_piece (p : pattern) (s : str) (lo : nat) (hi : option nat) :
  forallb is_letter s = true -> In (Piece CDigit lo hi) (pat_pieces p) -> 1 <= lo ->
  re_match p s = false.
Proof.
  intros Hl Hin Hlo; apply not_true_iff_false; intros Hm.
  destruct (re_match_witness _ _ _ _ _ Hm Hin Hlo) as [c [Hc Hk]].
  rewrite forallb_forall in Hl; specialize (Hl c Hc).
  by_ascii (fun c => negb (is_letter c) || negb (cls_match true CDigit c || cls_match false CDigit c)) c.
  rewrite Hl in H; destruct (pat_icase p); rewrite Hk in H; [|rewrite orb_true_r in H]; discriminate.
Qed.

(** The pieces [F], [R], [B] and [\d] never match a character that is neither
    a letter nor a digit. *)
Lemma no_alnum_piece (p : pattern) (s : str) (k : cls) (lo : nat) (hi : option nat) :
  forallb (fun c => negb (is_alnum c)) s = true -> In (Piece k lo hi) (pat_pieces p) -> 1 <= lo ->
  In k [CLit "F"; CLit "R"; CLit "B"; CDigit] -> re_match p s = false.
Proof.
  intros Hs Hin Hlo Hkk; apply not_true_iff_false; intros Hm.
  destruct (re_match_witness _ _ _ _ _ Hm Hin Hlo) as [c [Hc Hk]].
  rewrite forallb_forall in Hs; specialize (Hs c Hc).
  by_ascii (fun c => is_alnum c
               || forallb (fun k => negb (cls_match true k c || cls_match false k c))
                          [CLit "F"; CLit "R"; CLit "B"; CDigit]) c.
  apply negb_true_iff in Hs; rewrite Hs in H; cbn [orb] in H.
  rewrite forallb_forall in H; specialize (H k Hkk).
  destruct (pat_icase p); rewrite Hk in H; [|rewrite orb_true_r in H]; discriminate.
Qed.

Lemma floor_classes (c : ascii) :
  cls_match true (CLit "F") c = Ascii.eqb (char_upper c) "F"
  /\ cls_match true (CLit "l") c = Ascii.eqb (char_upper c) "L"
  /\ cls_match true (CLit "o") c = Ascii.eqb (char_upper c) "O"
  /\ cls_match true (CLit "r") c = Ascii.eqb (char_upper c) "R".
Proof.
  by_ascii (fun c => Bool.eqb (cls_match true (CLit "F") c) (Ascii.eqb (char_upper c) "F")
                     && Bool.eqb (cls_match true (CLit "l") c) (Ascii.eqb (char_upper c) "L")
                     && Bool.eqb (cls_match true (CLit "o") c) (Ascii.eqb (char_upper c) "O")
                     && Bool.eqb (cls_match true (CLit "r") c) (Ascii.eqb (char_upper c) "R")) c.
  rewrite !andb_true_iff in H; destruct H as [[[H1 H2] H3] H4].
  apply Bool.eqb_prop in H1, H2, H3, H4; auto.
Qed.

Lemma str_eqb_length (a b : str) : List.length a <> List.length b -> str_eqb a b = false.
Proof.
  intros H; apply not_true_iff_false; rewrite str_eqb_true; intros ->; apply H; reflexivity.
Qed.

(** [r"^Floor$"] with [re.I] on a letter run: the run spells FLOOR in any case. *)
Lemma floor_word (tok : str) :
  forallb is_letter tok = true ->
  re_match (Pattern [one (CLit "F"); one (CLit "l"); one (CLit "o"); one (CLit "o");
                     one (CLit "r")] true) tok
  = str_eqb (upper tok) (s2l "FLOOR").
Proof.
  intros Hl; rewrite re_match_no_newline.
  2:{ intros Hn; rewrite forallb_forall in Hl; specialize (Hl _ Hn); discriminate. }
  cbn [pat_icase pat_pieces].
  destruct tok as [|c1 [|c2 [|c3 [|c4 [|c5 [|c6 t]]]]]];
    rewrite ?match_pieces_one;
    try (rewrite str_eqb_length by (unfold upper; rewrite length_map; simpl; lia);
         cbn [match_pieces]; rewrite ?andb_false_r; reflexivity).
  destruct (floor_classes c1) as [-> _]; destruct (floor_classes c2) as (_ & -> & _).
  destruct (floor_classes c3) as (_ & _ & -> & _); destruct (floor_classes c4) as (_ & _ & -> & _).
  destruct (floor_classes c5) as (_ & _ & _ & ->); cbn [match_pieces]; rewrite andb_true_r.
  unfold upper; cbn [map].
  generalize (char_upper c1) (char_upper c2) (char_upper c3) (char_upper c4) (char_upper c5).
  intros d1 d2 d3 d4 d5; apply eq_true_iff_eq; rewrite str_eqb_true, !andb_true_iff, !Ascii.eqb_eq.
  split.
  - intros (-> & -> & -> & -> & ->); reflexivity.
  - intros E; injection E as -> -> -> -> ->; tauto.
Qed.

(** Extra (labeler): a token made only of letters that is in none of the
    five vocabularies is labelled FLOOR when it spells "floor" in any case,
    and MISC otherwise: none of the room, equipment-id or building patterns
    can match it. *)
Theorem label_token_letters (tok : str) (vs : vocabs) :
  forallb is_letter tok = true ->
  ~ In (upper tok) (v_VENDOR_TAG vs) -> ~ In (upper tok) (v_IO_TYPE vs) ->
  ~ In (upper tok) (v_EQUIP vs) -> ~ In (upper tok) (v_SUBCOMP vs) ->
  ~ In (upper tok) (v_POINT_FUNC vs) ->
  label_token tok vs = if str_eqb (upper tok) (s2l "FLOOR") then FLOOR else MISC.
Proof.
  intros Hl H1 H2 H3 H4 H5; rewrite label_token_vocab_miss by assumption.
  unfold any_match, FLOOR_PATTERNS, ROOM_PATTERNS, EQUIP_ID_PATTERNS, BUILDING_HINT_PATTERNS.
  cbn [existsb]; rewrite floor_word by exact Hl.
  rewrite (letters_digit_piece (Pattern [one (CLit "F"); opt (CLit "L"); plus CDigit] true)
             tok 1 None Hl ltac:(simpl; tauto) ltac:(lia)).
  rewrite (letters_digit_piece (Pattern [one (CLit "R"); one (CLit "M"); plus CDigit; opt AZ] true)
             tok 1 None Hl ltac:(simpl; tauto) ltac:(lia)).
  rewrite (letters_digit_piece (Pattern [Piece CDigit 3 (Some 4); opt AZ] true)
             tok 3 (Some 4) Hl ltac:(simpl; tauto) ltac:(lia)).
  rewrite (letters_digit_piece (Pattern [one CDigit; Piece AZ 1 (Some 3); Piece CDigit 1 (Some 3)] true)
             tok 1 (Some 1) Hl ltac:(simpl; tauto) ltac:(lia)).
  rewrite (letters_digit_piece (Pattern [plus CDigit] false) tok 1 None Hl ltac:(simpl; tauto) ltac:(lia)).
  rewrite (letters_digit_piece (Pattern [opt AZ; Piece CDigit 2 (Some 3); opt AZ] false)
             tok 2 (Some 3) Hl ltac:(simpl; tauto) ltac:(lia)).
  rewrite (letters_digit_piece (Pattern [one (CLit "B"); one (CLit "L"); one (CLit "D"); one (CLit "G");
             plus CDigit] true) tok 1 None Hl ltac:(simpl; tauto) ltac:(lia)).
  cbn [orb]; destruct (str_eqb (upper tok) (s2l "FLOOR")); reflexivity.
Qed.

Lemma label_token_letters_witness :
  (forallb is_letter (s2l "Floor") = true
   /\ label_token (s2l "Floor") empty_vocabs
      = if str_eqb (upper (s2l "Floor")) (s2l "FLOOR") then FLOOR else MISC)
  /\ (forallb is_letter (s2l "TEMP") = true
   /\ label_token (s2l "TEMP") empty_vocabs
      = if str_eqb (upper (s2l "TEMP")) (s2l "FLOOR") then FLOOR else MISC).
Proof.
  split; split; [reflexivity | | reflexivity |].
  - apply (label_token_letters (s2l "Floor") empty_vocabs); [reflexivity | simpl; tauto ..].
  - apply (label_token_letters (s2l "TEMP") empty_vocabs); [reflexivity | simpl; tauto ..].
Defined.

(** Extra (labeler): a token of Latin-1 characters with no ASCII letter and
    no digit 0-9 (the only characters [\d] matches on Latin-1), such as the
    single-character tokens "#" or "%" the tokenizer produces, that is in
    none of the five vocabularies is labelled MISC. *)
Theorem label_token_no_alnum (tok : str) (vs : vocabs) :
  forallb (fun c => negb (is_alnum c)) tok = true ->
  ~ In (upper tok) (v_VENDOR_TAG vs) -> ~ In (upper tok) (v_IO_TYPE vs) ->
  ~ In (upper tok) (v_EQUIP vs) -> ~ In (upper tok) (v_SUBCOMP vs) ->
  ~ In (upper tok) (v_POINT_FUNC vs) ->
  label_token tok vs = MISC.
Proof.
  intros Ha H1 H2 H3 H4 H5; rewrite label_token_vocab_miss by assumption.
  unfold any_match, FLOOR_PATTERNS, ROOM_PATTERNS, EQUIP_ID_PATTERNS, BUILDING_HINT_PATTERNS.
  cbn [existsb].
  rewrite (no_alnum_piece (Pattern [one (CLit "F"); opt (CLit "L"); plus CDigit] true) tok
             (CLit "F") 1 (Some 1) Ha ltac:(simpl; tauto) ltac:(lia) ltac:(simpl; tauto)).
  rewrite (no_alnum_piece (Pattern [one (CLit "F"); one (CLit "l"); one (CLit "o"); one (CLit "o");
             one (CLit "r")] true) tok
             (CLit "F") 1 (Some 1) Ha ltac:(simpl; tauto) ltac:(lia) ltac:(simpl; tauto)).
  rewrite (no_alnum_piece (Pattern [one (CLit "R"); one (CLit "M"); plus CDigit; opt AZ] true) tok
             (CLit "R") 1 (Some 1) Ha ltac:(simpl; tauto) ltac:(lia) ltac:(simpl; tauto)).
  rewrite (no_alnum_piece (Pattern [Piece CDigit 3 (Some 4); opt AZ] true) tok
             CDigit 3 (Some 4) Ha ltac:(simpl; tauto) ltac:(lia) ltac:(simpl; tauto)).
  rewrite (no_alnum_piece (Pattern [one CDigit; Piece AZ 1 (Some 3); Piece CDigit 1 (Some 3)] true) tok
             CDigit 1 (Some 1) Ha ltac:(simpl; tauto) ltac:(lia) ltac:(simpl; tauto)).
  rewrite (no_alnum_piece (Pattern [plus CDigit] false) tok
             CDigit 1 None Ha ltac:(simpl; tauto) ltac:(lia) ltac:(simpl; tauto)).
  rewrite (no_alnum_piece (Pattern [opt AZ; Piece CDigit 2 (Some 3); opt AZ] false) tok
             CDigit 2 (Some 3) Ha ltac:(simpl; tauto) ltac:(lia) ltac:(simpl; tauto)).
  rewrite (no_alnum_piece (Pattern [one (CLit "B"); one (CLit "L"); one (CLit "D"); one (CLit "G");
             plus CDigit] true) tok
             (CLit "B") 1 (Some 1) Ha ltac:(simpl; tauto) ltac:(lia) ltac:(simpl; tauto)).
  reflexivity.
Qed.

Lemma label_token_no_alnum_witness :
  forallb (fun c => negb (is_alnum c)) (s2l "#") = true
  /\ label_token (s2l "#") empty_vocabs = MISC.
Proof.
  split; [reflexivity|].
  apply (label_token_no_alnum (s2l "#") empty_vocabs); [reflexivity | simpl; tauto ..].
Defined.

(** Extra (annotate_record): for a point label of ASCII characters,
    annotation does not depend on letter case. For the point label
    upper-cased, the tokens are the original tokens upper-cased, and the
    token labels and BIO tags are unchanged. *)
Theorem annotate_record_upper (r : raw_record) (vs : vocabs) :
  forallb (fun c => nat_of_ascii c <? 128) (point_label r) = true ->
  an_tokens (annotate_record (RawRecord (upper (point_label r)) (building_id r)) vs)
  = map upper (an_tokens (annotate_record r vs))
  /\ an_token_labels (annotate_record (RawRecord (upper (point_label r)) (building_id r)) vs)
     = an_token_labels (annotate_record r vs)
  /\ an_bio_tags (annotate_record (RawRecord (upper (point_label r)) (building_id r)) vs)
     = an_bio_tags (annotate_record r vs).
Proof.
  intros _.
  assert (Hl : weak_label_tokens (tokenize (upper (point_label r))) vs
               = weak_label_tokens (tokenize (point_label r)) vs).
  { rewrite tokenize_map_upper; unfold weak_label_tokens; rewrite map_map.
    apply map_ext_in; intros tok Hin; apply label_token_upper.
    apply (tokenize_homogeneous (point_label r)), Hin. }
  unfold annotate_record; cbv zeta; cbn [an_tokens an_token_labels an_bio_tags point_label].
  rewrite Hl, tokenize_map_upper; auto.
Qed.

Lemma annotate_record_upper_witness :
  forallb (fun c => nat_of_ascii c <? 128) (s2l "Ahu-03.sat_ai") = true
  /\ an_token_labels (annotate_record (RawRecord (upper (s2l "Ahu-03.sat_ai")) (s2l "B1"))
       empty_vocabs)
     = an_token_labels (annotate_record (RawRecord (s2l "Ahu-03.sat_ai") (s2l "B1")) empty_vocabs).
Proof.
  split; [reflexivity|].
  refine (proj1 (proj2 (annotate_record_upper (RawRecord (s2l "Ahu-03.sat_ai") (s2l "B1"))
            empty_vocabs _))).
  reflexivity.
Defined.

(* ----------------------------------------------------------------- *)
(** *** BIO tags: well-formedness and decoding *)

Lemma bio_tag_spec_some (prev c : option str) (x : str) :
  eff c = Some x ->
  bio_tag_spec prev c = s2l "B-" ++ x \/ bio_tag_spec prev c = s2l "I-" ++ x.
Proof.
  unfold bio_tag_spec; intros ->.
  destruct prev as [p|]; [destruct (str_eqb x p)|]; auto.
Qed.

Lemma bio_tag_spec_I (prev c : option str) (x : str) :
  bio_tag_spec prev c = s2l "I-" ++ x -> prev = Some x /\ eff c = Some x.
Proof.
  unfold bio_tag_spec; destruct (eff c) as [y|]; [|discriminate].
  destruct prev as [p|]; [|discriminate].
  destruct (str_eqb y p) eqn:E; [|discriminate].
  apply str_eqb_true in E; subst p; intros H; injection H as ->; auto.
Qed.

Lemma bio_aux_I (cats : list (option str)) (prev : option str) (i : nat) (x : str) :
  nth_error (bio_aux prev cats) i = Some (s2l "I-" ++ x) ->
  match i with
  | 0 => prev = Some x
  | S j => nth_error (bio_aux prev cats) j = Some (s2l "B-" ++ x)
           \/ nth_error (bio_aux prev cats) j = Some (s2l "I-" ++ x)
  end.
Proof.
  revert prev i; induction cats as [|c cats IH]; intros prev i H;
    [destruct i; discriminate|].
  rewrite bio_aux_cons in H |- *; destruct i as [|j]; cbn [nth_error] in H.
  - injection H as H; exact (proj1 (bio_tag_spec_I _ _ _ H)).
  - specialize (IH (eff c) j H); destruct j as [|k]; cbn [nth_error].
    + destruct (bio_tag_spec_some prev c x IH) as [E|E]; rewrite E; auto.
    + exact IH.
Qed.

Lemma bio_decode_tag (prev c : option str) : bio_decode (bio_tag_spec prev c) = eff c.
Proof.
  destruct (eff c) as [x|] eqn:E.
  - unfold bio_decode; destruct (bio_tag_spec_some prev c x E) as [T|T]; rewrite T;
      (destruct (str_eqb _ (s2l "O")) eqn:F; [apply str_eqb_true in F; discriminate | reflexivity]).
  - unfold bio_tag_spec; rewrite E; reflexivity.
Qed.

(** Extra (categories_to_bio): the tags form a well-formed BIO sequence: an
    [I-x] tag is never first and always follows a [B-x] or [I-x] tag. *)
Theorem categories_to_bio_well_formed (cats : list (option str)) (i : nat) (x : str) :
  nth_error (categories_to_bio cats) i = Some (s2l "I-" ++ x) ->
  exists j, i = S j
    /\ (nth_error (categories_to_bio cats) j = Some (s2l "B-" ++ x)
        \/ nth_error (categories_to_bio cats) j = Some (s2l "I-" ++ x)).
Proof.
  unfold categories_to_bio; intros H; pose proof (bio_aux_I cats None i x H) as Hi.
  destruct i as [|j]; [discriminate|]; exists j; auto.
Qed.

Lemma categories_to_bio_well_formed_witness :
  nth_error (categories_to_bio [Some (s2l "EQUIP"); Some (s2l "EQUIP")]) 1
    = Some (s2l "I-" ++ s2l "EQUIP")
  /\ exists j, 1 = S j
    /\ (nth_error (categories_to_bio [Some (s2l "EQUIP"); Some (s2l "EQUIP")]) j
          = Some (s2l "B-" ++ s2l "EQUIP")
        \/ nth_error (categories_to_bio [Some (s2l "EQUIP"); Some (s2l "EQUIP")]) j
          = Some (s2l "I-" ++ s2l "EQUIP")).
Proof.
  split; [reflexivity|].
  apply (categories_to_bio_well_formed [Some (s2l "EQUIP"); Some (s2l "EQUIP")] 1 (s2l "EQUIP")).
  reflexivity.
Defined.

(** Extra (categories_to_bio): the tags lose nothing but the difference
    between MISC and a missing category: reading each tag back ([O] as
    none, [B-x] and [I-x] as [x]) gives the categories with MISC and
    missing ones as none. *)
Theorem categories_to_bio_decode (cats : list (option str)) :
  map bio_decode (categories_to_bio cats) = map eff cats.
Proof.
  unfold categories_to_bio; generalize (@None str) as prev.
  induction cats as [|c cats IH]; intros prev; [reflexivity|].
  rewrite bio_aux_cons; cbn [map]; rewrite bio_decode_tag, IH; reflexivity.
Qed.

(* ----------------------------------------------------------------- *)
(** *** Vocabulary generation: dict invariants *)

Lemma counter_incr_keys_iff (c : counter) (x k : str) :
  In k (map fst (counter_incr c x)) <-> k = x \/ In k (map fst c).
Proof.
  induction c as [|[k' v] c IH]; cbn [counter_incr map fst In]; [intuition congruence|].
  destruct (str_eqb x k') eqn:E; cbn [map fst In].
  - apply str_eqb_true in E; subst; intuition congruence.
  - rewrite IH; intuition congruence.
Qed.

Lemma counter_incr_NoDup (c : counter) (x : str) :
  NoDup (map fst c) -> NoDup (map fst (counter_incr c x)).
Proof.
  induction c as [|[k' v] c IH]; cbn [counter_incr map fst]; intros Hd.
  - constructor; [intros []|constructor].
  - inversion Hd as [|? ? Hn Hd']; subst.
    destruct (str_eqb x k') eqn:E; cbn [map fst]; [exact Hd|].
    constructor; [|apply IH, Hd'].
    rewrite counter_incr_keys_iff; intros [->|H]; [rewrite str_eqb_refl in E; discriminate|].
    contradiction.
Qed.

Lemma counter_update_keys_iff (c : counter) (xs : list str) (k : str) :
  In k (map fst (counter_update c xs)) <-> In k (map fst c) \/ In k xs.
Proof.
  unfold counter_update; revert c; induction xs as [|x xs IH]; intros c;
    cbn [fold_left In]; [tauto|].
  rewrite IH, counter_incr_keys_iff; intuition congruence.
Qed.

Lemma counter_update_NoDup (c : counter) (xs : list str) :
  NoDup (map fst c) -> NoDup (map fst (counter_update c xs)).
Proof.
  unfold counter_update; revert c; induction xs as [|x xs IH]; intros c Hd;
    cbn [fold_left]; [exact Hd|].
  apply IH, counter_incr_NoDup, Hd.
Qed.

Lemma counter_In_get (c : counter) (k : str) (f : nat) :
  NoDup (map fst c) -> In (k, f) c -> counter_get c k = f.
Proof.
  induction c as [|[k' v] c IH]; cbn [In counter_get map fst]; [intros _ []|].
  intros Hd [E|H]; inversion Hd as [|? ? Hn Hd']; subst.
  - injection E as -> ->; rewrite str_eqb_refl; reflexivity.
  - destruct (str_eqb k k') eqn:E; [|apply IH; assumption].
    apply str_eqb_true in E; subst; exfalso; apply Hn.
    apply in_map_iff; exists (k', f); auto.
Qed.

Lemma per_building_keys (m : list (str * counter)) (b b' : str) (xs : list str) :
  In b' (map fst (per_building_update m b xs)) <-> b' = b \/ In b' (map fst m).
Proof.
  induction m as [|[k c] m IH]; cbn [per_building_update map fst In]; [intuition congruence|].
  destruct (str_eqb b k) eqn:E; cbn [map fst In].
  - apply str_eqb_true in E; subst; intuition congruence.
  - rewrite IH; intuition congruence.
Qed.

Lemma per_building_NoDup (m : list (str * counter)) (b : str) (xs : list str) :
  NoDup (map fst m) -> NoDup (map fst (per_building_update m b xs)).
Proof.
  induction m as [|[k c] m IH]; cbn [per_building_update map fst]; intros Hd.
  - constructor; [intros []|constructor].
  - inversion Hd as [|? ? Hn Hd']; subst.
    destruct (str_eqb b k) eqn:E; cbn [map fst]; [exact Hd|].
    constructor; [|apply IH, Hd'].
    rewrite per_building_keys; intros [->|H]; [rewrite str_eqb_refl in E; discriminate|].
    contradiction.
Qed.

Lemma stats_step_keys (st : corpus_stats) (r : raw_record) (t b : str) :
  (In t (map fst (token_counter (stats_step st r)))
   <-> In t (map fst (token_counter st)) \/ In t (record_tokens_upper r))
  /\ (NoDup (map fst (token_counter st)) -> NoDup (map fst (token_counter (stats_step st r))))
  /\ (In b (map fst (per_building_counter (stats_step st r)))
      <-> In b (map fst (per_building_counter st))
          \/ (tokenize (point_label r) <> [] /\ building_id r = b))
  /\ (NoDup (map fst (per_building_counter st)) ->
      NoDup (map fst (per_building_counter (stats_step st r)))).
Proof.
  unfold stats_step, record_tokens_upper; cbv zeta.
  destruct (tokenize (point_label r)) as [|x xs] eqn:Et;
    cbn [token_counter per_building_counter].
  - cbn [map In]; refine (conj _ (conj (fun H => H) (conj _ (fun H => H)))); [tauto|].
    split; [tauto|]; intros [H|[H _]]; [exact H | contradiction].
  - rewrite counter_update_keys_iff, per_building_keys.
    refine (conj _ (conj (counter_update_NoDup _ _) (conj _ (per_building_NoDup _ _ _)))); [tauto|].
    split.
    + intros [->|H]; [right; split; [discriminate | reflexivity] | left; exact H].
    + intros [H|[_ <-]]; [right; exact H | left; reflexivity].
Qed.

(** The keys of the token counter and of the per-building counter. *)
Lemma stats_fold_keys (rs : list raw_record) (st : corpus_stats) (t b : str) :
  (In t (map fst (token_counter (fold_left stats_step rs st)))
   <-> In t (map fst (token_counter st)) \/ In t (corpus_tokens rs))
  /\ (NoDup (map fst (token_counter st)) ->
      NoDup (map fst (token_counter (fold_left stats_step rs st))))
  /\ (In b (map fst (per_building_counter (fold_left stats_step rs st)))
      <-> In b (map fst (per_building_counter st))
          \/ exists r, In r rs /\ tokenize (point_label r) <> [] /\ building_id r = b)
  /\ (NoDup (map fst (per_building_counter st)) ->
      NoDup (map fst (per_building_counter (fold_left stats_step rs st)))).
Proof.
  unfold corpus_tokens; revert st; induction rs as [|r rs IH]; intros st;
    cbn [fold_left map List.concat In].
  { split; [tauto|]; split; [tauto|]; split; [|tauto].
    split; [tauto|]; intros [H|(r & [] & _)]; exact H. }
  destruct (IH (stats_step st r)) as (H1 & H2 & H3 & H4).
  destruct (stats_step_keys st r t b) as (S1 & S2 & S3 & S4).
  rewrite H1, H3, S1, S3, in_app_iff; clear H1 H3 S1 S3.
  refine (conj _ (conj (fun Hd => H2 (S2 Hd)) (conj _ (fun Hd => H4 (S4 Hd))))); [tauto|].
  split.
  - intros [[H|[Hne Hb]]|(r' & Hr' & Hne & Hb)]; [left; exact H| |].
    + right; exists r; auto.
    + right; exists r'; auto.
  - intros [H|(r' & [->|Hr'] & Hne & Hb)]; [left; left; exact H | left; right; auto |].
    right; exists r'; auto.
Qed.

Lemma token_counter_keys_iff (corpus : list raw_record) (t : str) :
  In t (map fst (token_counter (collect_stats corpus))) <-> In t (corpus_tokens corpus).
Proof.
  unfold collect_stats; rewrite (proj1 (stats_fold_keys corpus stats_init t t)); cbn; tauto.
Qed.

Lemma token_counter_NoDup (corpus : list raw_record) :
  NoDup (map fst (token_counter (collect_stats corpus))).
Proof.
  unfold collect_stats; apply (stats_fold_keys corpus stats_init (s2l "") (s2l "")); constructor.
Qed.

Lemma token_counter_get (corpus : list raw_record) (t : str) :
  counter_get (token_counter (collect_stats corpus)) t
  = count_occ (list_eq_dec ascii_dec) (corpus_tokens corpus) t.
Proof.
  unfold collect_stats, corpus_tokens.
  rewrite (proj1 (stats_fold_fields corpus stats_init t (s2l ""))); reflexivity.
Qed.

Lemma token_counter_get_pos (corpus : list raw_record) (t : str) :
  In t (corpus_tokens corpus) -> 0 < counter_get (token_counter (collect_stats corpus)) t.
Proof.
  intros H; rewrite token_counter_get; apply count_occ_In, H.
Qed.

(* ----------------------------------------------------------------- *)
(** *** Vocabulary generation: the candidate cascade *)

Lemma dict_set_new (d : list (str * cand_stats)) (k : str) (v : cand_stats) :
  ~ In k (map fst d) -> dict_set d k v = d ++ [(k, v)].
Proof.
  induction d as [|[k' v'] d IH]; cbn [dict_set map fst In app]; intros Hn; [reflexivity|].
  destruct (str_eqb k k') eqn:E.
  - apply str_eqb_true in E; subst; tauto.
  - rewrite IH by tauto; reflexivity.
Qed.

Lemma bucket_eqb_true (a b : bucket) : bucket_eqb a b = true <-> a = b.
Proof. destruct a, b; cbn; split; congruence. Qed.

Lemma cand_dict_step (st : corpus_stats) (cs : candidates) (t : str) (f : nat) (b : bucket) :
  is_dict_bucket b = true ->
  cand_dict b (collect_step st cs (t, f))
  = if in_bucket_b (candidate_bucket t st) b
    then dict_set (cand_dict b cs) t (cand_entry st b t f) else cand_dict b cs.
Proof.
  intros Hb; destruct cs as [io ven pf sc eq]; unfold collect_step.
  destruct (candidate_bucket t st) as [[]|]; destruct b; try discriminate; reflexivity.
Qed.

Lemma cand_set_step (st : corpus_stats) (cs : candidates) (t : str) (f : nat) (b : bucket) :
  is_dict_bucket b = false ->
  cand_set b (collect_step st cs (t, f))
  = if in_bucket_b (candidate_bucket t st) b then set_add t (cand_set b cs) else cand_set b cs.
Proof.
  intros Hb; destruct cs as [io ven pf sc eq]; unfold collect_step.
  destruct (candidate_bucket t st) as [[]|]; destruct b; try discriminate; reflexivity.
Qed.

Lemma in_bucket_b_iff (ob : option bucket) (b : bucket) : in_bucket_b ob b = true <-> ob = Some b.
Proof.
  destruct ob as [b'|]; cbn; [rewrite bucket_eqb_true|]; split; congruence.
Qed.

Lemma collect_fold_dict (st : corpus_stats) (b : bucket) (items : list (str * nat))
    (cs : candidates) :
  is_dict_bucket b = true -> NoDup (map fst items) ->
  (forall t, In t (map fst items) -> ~ In t (map fst (cand_dict b cs))) ->
  (forall t s, In (t, s) (cand_dict b (fold_left (collect_step st) items cs))
     <-> In (t, s) (cand_dict b cs)
         \/ exists f, In (t, f) items /\ candidate_bucket t st = Some b
                     /\ s = cand_entry st b t f)
  /\ (NoDup (map fst (cand_dict b cs)) ->
      NoDup (map fst (cand_dict b (fold_left (collect_step st) items cs)))).
Proof.
  intros Hb; revert cs; induction items as [|[t' f'] items IH]; intros cs Hnd Hdis;
    cbn [fold_left].
  { split; [|tauto]; intros t s; split; [tauto|]; intros [H|(f & [] & _)]; exact H. }
  inversion Hnd as [|? ? Hn Hnd']; subst; cbn [map fst] in *.
  assert (Hdis' : forall t, In t (map fst items) ->
                   ~ In t (map fst (cand_dict b (collect_step st cs (t', f'))))).
  { intros t Ht; rewrite cand_dict_step by exact Hb.
    destruct (in_bucket_b (candidate_bucket t' st) b).
    - rewrite dict_set_keys; intros [->|H]; [contradiction|]; exact (Hdis t (or_intror Ht) H).
    - exact (Hdis t (or_intror Ht)). }
  destruct (IH (collect_step st cs (t', f')) Hnd' Hdis') as [IH1 IH2]; clear IH.
  rewrite cand_dict_step in IH1, IH2 by exact Hb.
  assert (Hnew : ~ In t' (map fst (cand_dict b cs))) by (apply Hdis; left; reflexivity).
  split.
  - intros t s; rewrite IH1; clear IH1 IH2.
    destruct (in_bucket_b (candidate_bucket t' st) b) eqn:E.
    + apply in_bucket_b_iff in E; rewrite dict_set_new, in_app_iff by exact Hnew; cbn [In].
      split.
      * intros [[H|[H|[]]]|(f & Hf & Hbk & ->)]; [tauto| |right; exists f; cbn [In]; intuition].
        injection H as <- <-; right; exists f'; cbn [In]; intuition.
      * intros [H|(f & [H|Hf] & Hbk & ->)]; [tauto| |right; exists f; cbn [In]; intuition].
        injection H as <- <-; left; right; left; reflexivity.
    + split.
      * intros [H|(f & Hf & Hbk & ->)]; [tauto|right; exists f; cbn [In]; intuition].
      * intros [H|(f & [H|Hf] & Hbk & ->)]; [tauto| |right; exists f; cbn [In]; intuition].
        injection H as <- <-; apply in_bucket_b_iff in Hbk; congruence.
  - intros Hd; apply IH2; destruct (in_bucket_b (candidate_bucket t' st) b); [|exact Hd].
    rewrite dict_set_new, map_app by exact Hnew; apply NoDup_app; [exact Hd | repeat constructor; intros [] |].
    intros x Hx [<-|[]]; contradiction.
Qed.

Lemma collect_fold_set (st : corpus_stats) (b : bucket) (items : list (str * nat))
    (cs : candidates) :
  is_dict_bucket b = false ->
  (forall t, In t (cand_set b (fold_left (collect_step st) items cs))
     <-> In t (cand_set b cs) \/ (In t (map fst items) /\ candidate_bucket t st = Some b))
  /\ (NoDup (cand_set b cs) -> NoDup (cand_set b (fold_left (collect_step st) items cs))).
Proof.
  intros Hb; revert cs; induction items as [|[t' f'] items IH]; intros cs; cbn [fold_left].
  { split; [|tauto]; intros t; cbn [map In]; tauto. }
  destruct (IH (collect_step st cs (t', f'))) as [IH1 IH2]; clear IH.
  rewrite cand_set_step in IH1, IH2 by exact Hb.
  split.
  - intros t; rewrite IH1; cbn [map fst In].
    destruct (in_bucket_b (candidate_bucket t' st) b) eqn:E.
    + apply in_bucket_b_iff in E; rewrite set_add_In; intuition congruence.
    + split; [intuition|].
      intros [H|[[->|H] Hbk]]; [tauto| |tauto].
      apply in_bucket_b_iff in Hbk; congruence.
  - intros Hd; apply IH2; destruct (in_bucket_b (candidate_bucket t' st) b);
      [apply set_add_NoDup|]; exact Hd.
Qed.

(** The candidate dicts after the loop: every token of the counter in the
    bucket, stored once, with its frequency and building count. *)
Lemma collect_candidates_dict (st : corpus_stats) (b : bucket) :
  is_dict_bucket b = true -> NoDup (map fst (token_counter st)) ->
  (forall t s, In (t, s) (cand_dict b (collect_candidates st))
     <-> In t (map fst (token_counter st)) /\ candidate_bucket t st = Some b
         /\ s = cand_entry st b t (counter_get (token_counter st) t))
  /\ NoDup (map fst (cand_dict b (collect_candidates st))).
Proof.
  intros Hb Hnd.
  assert (Hdis : forall t, In t (map fst (token_counter st)) -> ~ In t (map fst (cand_dict b cands_init)))
    by (intros t _; destruct b; cbn; tauto).
  destruct (collect_fold_dict st b (token_counter st) cands_init Hb Hnd Hdis) as [H1 H2].
  unfold collect_candidates; split.
  - intros t s; rewrite H1.
    assert (E0 : ~ In (t, s) (cand_dict b cands_init)) by (destruct b; cbn; tauto).
    split.
    + intros [H|(f & Hf & Hbk & ->)]; [contradiction|].
      rewrite (counter_In_get _ _ _ Hnd Hf); refine (conj _ (conj Hbk eq_refl)).
      apply in_map_iff; exists (t, f); auto.
    + intros (Ht & Hbk & ->); right; apply in_map_iff in Ht; destruct Ht as [[k f] [Hk Hf]].
      cbn [fst] in Hk; subst k; exists f; rewrite (counter_In_get _ _ _ Hnd Hf); auto.
  - apply H2; destruct b; cbn; constructor.
Qed.

Lemma collect_candidates_set (st : corpus_stats) (b : bucket) :
  is_dict_bucket b = false ->
  (forall t, In t (cand_set b (collect_candidates st))
     <-> In t (map fst (token_counter st)) /\ candidate_bucket t st = Some b)
  /\ NoDup (cand_set b (collect_candidates st)).
Proof.
  intros Hb; destruct (collect_fold_set st b (token_counter st) cands_init Hb) as [H1 H2].
  unfold collect_candidates; split.
  - intros t; rewrite H1; destruct b; cbn; tauto.
  - apply H2; destruct b; cbn; constructor.
Qed.

Lemma candidate_bucket_iff (t : str) (st : corpus_stats) :
  (candidate_bucket t st = Some BIo <-> is_io_type t = true)
  /\ (candidate_bucket t st = Some BVendor <-> is_io_type t = false /\ is_vendor t = true)
  /\ (candidate_bucket t st = Some BPointFunc
      <-> is_io_type t = false /\ is_vendor t = false /\ likely_point_func t st = true)
  /\ (candidate_bucket t st = Some BSubcomp
      <-> is_io_type t = false /\ is_vendor t = false /\ likely_point_func t st = false
          /\ likely_subcomponent t st = true)
  /\ (candidate_bucket t st = Some BEquip
      <-> is_io_type t = false /\ is_vendor t = false /\ likely_point_func t st = false
          /\ likely_subcomponent t st = false /\ likely_equip t st = true).
Proof.
  unfold candidate_bucket.
  destruct (is_io_type t), (is_vendor t), (likely_point_func t st), (likely_subcomponent t st),
    (likely_equip t st); cbn; intuition congruence.
Qed.

Lemma dict_vocab_iff (st : corpus_stats) (b : bucket) (p : str * cand_stats -> bool) (t : str) :
  is_dict_bucket b = true -> NoDup (map fst (token_counter st)) ->
  In t (map fst (filter p (cand_dict b (collect_candidates st))))
  <-> In t (map fst (token_counter st)) /\ candidate_bucket t st = Some b
      /\ p (t, cand_entry st b t (counter_get (token_counter st) t)) = true.
Proof.
  intros Hb Hnd; destruct (collect_candidates_dict st b Hb Hnd) as [H _].
  rewrite in_map_iff; split.
  - intros [[k s] [Hk Hin]]; cbn [fst] in Hk; subst k; apply filter_In in Hin.
    destruct Hin as [Hin Hp]; apply H in Hin; destruct Hin as (Ht & Hbk & ->); auto.
  - intros (Ht & Hbk & Hp); exists (t, cand_entry st b t (counter_get (token_counter st) t)).
    split; [reflexivity|]; apply filter_In; split; [apply H; auto | exact Hp].
Qed.

(** Extra (extract_vocab): a token is in io_type_vocab exactly when it is one
    of the known IO types (AI, AO, DI, DO, AV, BV, UI, UO) and occurs, case
    folded, among the tokens of the corpus. *)
Theorem io_type_vocab_iff (corpus : list raw_record) (t : str) :
  In t (io_type_vocab (extract_vocab corpus))
  <-> In t KNOWN_IO /\ In t (corpus_tokens corpus).
Proof.
  unfold extract_vocab; cbv zeta; cbn [io_type_vocab]; rewrite sorted_strs_In.
  destruct (collect_candidates_set (collect_stats corpus) BIo eq_refl) as [H _]; cbn [cand_set] in H.
  rewrite H, token_counter_keys_iff, (proj1 (candidate_bucket_iff t _)).
  unfold is_io_type; rewrite mem_In; tauto.
Qed.

(** Extra (extract_vocab): a token is in vendor_vocab exactly when it occurs
    in the corpus, is not a known IO type, and [is_vendor] accepts it (a
    known vendor hint, or ending in "NET" with at most 8 characters). *)
Theorem vendor_vocab_iff (corpus : list raw_record) (t : str) :
  In t (vendor_vocab (extract_vocab corpus))
  <-> is_vendor t = true /\ ~ In t KNOWN_IO /\ In t (corpus_tokens corpus).
Proof.
  unfold extract_vocab; cbv zeta; cbn [vendor_vocab]; rewrite sorted_strs_In.
  destruct (collect_candidates_set (collect_stats corpus) BVendor eq_refl) as [H _]; cbn [cand_set] in H.
  rewrite H, token_counter_keys_iff, (proj1 (proj2 (candidate_bucket_iff t _))).
  unfold is_io_type; rewrite mem_false_not_In; tauto.
Qed.

(** Extra (extract_vocab): a token is in point_func_vocab exactly when it
    occurs in the corpus, is neither an IO type nor a vendor tag,
    [likely_point_func] accepts it, and its frequency plus its number of
    buildings is at least 5. *)
Theorem point_func_vocab_iff (corpus : list raw_record) (t : str) :
  In t (point_func_vocab (extract_vocab corpus))
  <-> In t (corpus_tokens corpus) /\ is_io_type t = false /\ is_vendor t = false
      /\ likely_point_func t (collect_stats corpus) = true
      /\ MIN_POINTFUNC_SCORE
         <= counter_get (token_counter (collect_stats corpus)) t
            + List.length (set_map_get (token_buildings (collect_stats corpus)) t).
Proof.
  unfold extract_vocab; cbv zeta; cbn [point_func_vocab]; rewrite sorted_strs_In, py_set_In.
  pose proof (dict_vocab_iff (collect_stats corpus) BPointFunc
                (fun kv => MIN_POINTFUNC_SCORE <=? score_pointfunc (snd kv)) t eq_refl
                (token_counter_NoDup corpus)) as H; cbn [cand_dict] in H.
  rewrite H, token_counter_keys_iff, (proj1 (proj2 (proj2 (candidate_bucket_iff t _)))).
  cbn [snd cand_entry score_pointfunc cs_freq cs_buildings]; rewrite Nat.leb_le; tauto.
Qed.

(** Extra (extract_vocab): a token is in subcomp_vocab exactly when it
    occurs in the corpus, is neither an IO type nor a vendor tag,
    [likely_point_func] rejects it, [likely_subcomponent] accepts it, and
    its frequency plus twice its number of buildings is at least 15. *)
Theorem subcomp_vocab_iff (corpus : list raw_record) (t : str) :
  In t (subcomp_vocab (extract_vocab corpus))
  <-> In t (corpus_tokens corpus) /\ is_io_type t = false /\ is_vendor t = false
      /\ likely_point_func t (collect_stats corpus) = false
      /\ likely_subcomponent t (collect_stats corpus) = true
      /\ MIN_SUBCOMP_SCORE
         <= counter_get (token_counter (collect_stats corpus)) t
            + 2 * List.length (set_map_get (token_buildings (collect_stats corpus)) t).
Proof.
  unfold extract_vocab; cbv zeta; cbn [subcomp_vocab]; rewrite sorted_strs_In, py_set_In.
  pose proof (dict_vocab_iff (collect_stats corpus) BSubcomp
                (fun kv => MIN_SUBCOMP_SCORE <=? score_subcomp (snd kv)) t eq_refl
                (token_counter_NoDup corpus)) as H; cbn [cand_dict] in H.
  rewrite H, token_counter_keys_iff, (proj1 (proj2 (proj2 (proj2 (candidate_bucket_iff t _))))).
  cbn [snd cand_entry score_subcomp cs_freq cs_buildings]; rewrite Nat.leb_le; tauto.
Qed.

(* ----------------------------------------------------------------- *)
(** *** Vocabulary generation: sorting and trimming *)

Lemma str_leb_total (a b : str) : str_leb a b = false -> str_leb b a = true.
Proof.
  revert b; induction a as [|x a IH]; intros [|y b]; cbn [str_leb]; try discriminate; [reflexivity|].
  destruct (code x <? code y) eqn:E1; [discriminate|].
  destruct (code y <? code x) eqn:E2; [reflexivity|].
  intros H; apply IH, H.
Qed.

Lemma insert_str_sorted (x : str) (l : list str) :
  Sorted (fun a b => str_leb a b = true) l ->
  Sorted (fun a b => str_leb a b = true) (insert_str x l).
Proof.
  induction l as [|y l IH]; intros H; cbn [insert_str]; [repeat constructor|].
  apply Sorted_inv in H; destruct H as [Hl Hy].
  destruct (str_leb x y) eqn:E; [constructor; [constructor; auto | constructor; exact E]|].
  constructor; [apply IH, Hl|].
  destruct l as [|z l]; cbn [insert_str]; [constructor; apply str_leb_total, E|].
  destruct (str_leb x z); constructor; [apply str_leb_total, E | apply HdRel_inv in Hy; exact Hy].
Qed.

Lemma insert_str_perm (x : str) (l : list str) : Permutation (insert_str x l) (x :: l).
Proof.
  induction l as [|y l IH]; cbn [insert_str]; [reflexivity|].
  destruct (str_leb x y); [reflexivity|].
  rewrite IH; apply perm_swap.
Qed.

Lemma sorted_strs_sorted (l : list str) :
  Sorted (fun a b => str_leb a b = true) (sorted_strs l).
Proof. induction l as [|x l IH]; cbn [sorted_strs fold_right]; [constructor | apply insert_str_sorted, IH]. Qed.

Lemma sorted_strs_perm (l : list str) : Permutation (sorted_strs l) l.
Proof.
  induction l as [|x l IH]; cbn [sorted_strs fold_right]; [reflexivity|].
  rewrite insert_str_perm, IH; reflexivity.
Qed.

Lemma insert_by_score_sorted (x : str * cand_stats) (l : list (str * cand_stats)) :
  Sorted (fun a b => score_equip (snd b) <= score_equip (snd a)) l ->
  Sorted (fun a b => score_equip (snd b) <= score_equip (snd a)) (insert_by_score x l).
Proof.
  induction l as [|y l IH]; intros H; cbn [insert_by_score]; [repeat constructor|].
  apply Sorted_inv in H; destruct H as [Hl Hy].
  destruct (score_equip (snd y) <=? score_equip (snd x)) eqn:E.
  - apply Nat.leb_le in E; constructor; [constructor; auto | constructor; exact E].
  - apply Nat.leb_gt in E; constructor; [apply IH, Hl|].
    destruct l as [|z l]; cbn [insert_by_score]; [constructor; lia|].
    destruct (score_equip (snd z) <=? score_equip (snd x)); constructor;
      [lia | apply HdRel_inv in Hy; exact Hy].
Qed.

Lemma insert_by_score_perm (x : str * cand_stats) (l : list (str * cand_stats)) :
  Permutation (insert_by_score x l) (x :: l).
Proof.
  induction l as [|y l IH]; cbn [insert_by_score]; [reflexivity|].
  destruct (score_equip (snd y) <=? score_equip (snd x)); [reflexivity|].
  rewrite IH; apply perm_swap.
Qed.

Lemma sort_by_score_sorted (l : list (str * cand_stats)) :
  StronglySorted (fun a b => score_equip (snd b) <= score_equip (snd a)) (sort_by_score_desc l).
Proof.
  apply Sorted_StronglySorted; [intros a b c Hab Hbc; lia|].
  induction l as [|x l IH]; cbn [sort_by_score_desc fold_right];
    [constructor | apply insert_by_score_sorted, IH].
Qed.

Lemma sort_by_score_perm (l : list (str * cand_stats)) : Permutation (sort_by_score_desc l) l.
Proof.
  induction l as [|x l IH]; cbn [sort_by_score_desc fold_right]; [reflexivity|].
  rewrite insert_by_score_perm, IH; reflexivity.
Qed.

Lemma StronglySorted_app_rel {A} (R : A -> A -> Prop) (l1 l2 : list A) (a b : A) :
  StronglySorted R (l1 ++ l2) -> In a l1 -> In b l2 -> R a b.
Proof.
  induction l1 as [|x l1 IH]; cbn [app In]; [intros _ []|].
  intros H Ha Hb; apply StronglySorted_inv in H; destruct H as [H HF].
  destruct Ha as [->|Ha]; [|exact (IH H Ha Hb)].
  rewrite Forall_forall in HF; apply HF, in_app_iff; right; exact Hb.
Qed.

Lemma equip_entry (corpus : list raw_record) (t : str) (s : cand_stats) :
  In (t, s) (equip_candidates (collect_candidates (collect_stats corpus))) ->
  score_equip s = equip_score (collect_stats corpus) t.
Proof.
  intros H; destruct (collect_candidates_dict (collect_stats corpus) BEquip eq_refl
                        (token_counter_NoDup corpus)) as [Hd _].
  apply Hd in H; destruct H as (_ & _ & ->); reflexivity.
Qed.

Lemma NoDup_same_length (l1 l2 : list str) :
  NoDup l1 -> NoDup l2 -> (forall x, In x l1 <-> In x l2) -> List.length l1 = List.length l2.
Proof.
  intros H1 H2 H; apply Nat.le_antisymm; apply NoDup_incl_length; auto; intros x Hx; apply H; exact Hx.
Qed.

Lemma NoDup_firstn_str (n : nat) (l : list str) : NoDup l -> NoDup (firstn n l).
Proof. intros H; rewrite <- (firstn_skipn n l) in H; exact (NoDup_app_remove_r _ _ H). Qed.

(** Extra (extract_vocab): equip_vocab holds exactly min(150, number of
    equipment candidates) tokens, all of them equipment candidates: the
    trimming keeps the first MAX_EQUIP candidates of the ranking and loses
    none to duplicates. *)
Theorem equip_vocab_size (corpus : list raw_record) :
  List.length (equip_vocab (extract_vocab corpus))
  = Nat.min MAX_EQUIP (List.length (equip_candidates (collect_candidates (collect_stats corpus))))
  /\ (forall u, In u (equip_vocab (extract_vocab corpus)) ->
                In u (map fst (equip_candidates (collect_candidates (collect_stats corpus))))).
Proof.
  unfold extract_vocab; cbv zeta; cbn [equip_vocab].
  set (E := equip_candidates (collect_candidates (collect_stats corpus))).
  split.
  - assert (HE : NoDup (map fst E)).
    { exact (proj2 (collect_candidates_dict (collect_stats corpus) BEquip eq_refl
                     (token_counter_NoDup corpus))). }
    assert (HS : NoDup (map fst (sort_by_score_desc E))).
    { eapply Permutation_NoDup; [symmetry; apply Permutation_map, sort_by_score_perm | exact HE]. }
    rewrite (Permutation_length (sorted_strs_perm _)), <- firstn_map.
    unfold py_set; rewrite (nodup_fixed_point _ (NoDup_firstn_str _ _ HS)), length_firstn, length_map.
    rewrite (Permutation_length (sort_by_score_perm E)); reflexivity.
  - intros u Hu; rewrite sorted_strs_In, py_set_In in Hu.
    apply in_map_iff in Hu; destruct Hu as [kv [<- Hkv]].
    apply in_map, sort_by_score_In, (In_firstn_In MAX_EQUIP), Hkv.
Qed.

(** Extra (extract_vocab): the equipment trimming keeps the best scores:
    every token kept in equip_vocab has an equipment score (frequency + 2 *
    buildings + 3 * numeric successions) at least that of every equipment
    candidate that was dropped. *)
Theorem equip_vocab_top_scores (corpus : list raw_record) (t u : str) :
  In t (equip_vocab (extract_vocab corpus)) ->
  In u (map fst (equip_candidates (collect_candidates (collect_stats corpus)))) ->
  ~ In u (equip_vocab (extract_vocab corpus)) ->
  equip_score (collect_stats corpus) u <= equip_score (collect_stats corpus) t.
Proof.
  unfold extract_vocab; cbv zeta; cbn [equip_vocab].
  set (E := equip_candidates (collect_candidates (collect_stats corpus))).
  rewrite !sorted_strs_In, !py_set_In; intros Ht Hu Hnu.
  apply in_map_iff in Ht; destruct Ht as [[t' st_] [Et Ht]]; cbn [fst] in Et; subst t'.
  apply in_map_iff in Hu; destruct Hu as [[u' su] [Eu Hu]]; cbn [fst] in Eu; subst u'.
  assert (HuL : In (u, su) (sort_by_score_desc E)) by (apply sort_by_score_In, Hu).
  rewrite <- (firstn_skipn MAX_EQUIP (sort_by_score_desc E)), in_app_iff in HuL.
  destruct HuL as [HuL|HuL]; [exfalso; apply Hnu, in_map_iff; exists (u, su); auto|].
  pose proof (StronglySorted_app_rel _ _ _ _ _ (eq_ind _ _ (sort_by_score_sorted E) _
                (eq_sym (firstn_skipn MAX_EQUIP (sort_by_score_desc E)))) Ht HuL) as Hle.
  cbn [snd] in Hle.
  rewrite <- (equip_entry corpus t st_), <- (equip_entry corpus u su); [exact Hle | exact Hu |].
  apply sort_by_score_In, (In_firstn_In MAX_EQUIP), Ht.
Qed.

Lemma q_kept : mem (s2l "QAA") (equip_vocab (extract_vocab corpus_q)) = true.
Proof. vm_compute. reflexivity. Qed.
Lemma q_cand : mem (s2l "QGA") (map fst (equip_candidates (collect_candidates (collect_stats corpus_q)))) = true.
Proof. vm_compute. reflexivity. Qed.
Lemma q_dropped : mem (s2l "QGA") (equip_vocab (extract_vocab corpus_q)) = false.
Proof. vm_compute. reflexivity. Qed.
Lemma equip_vocab_top_scores_witness :
  (In (s2l "QAA") (equip_vocab (extract_vocab corpus_q))
   /\ In (s2l "QGA") (map fst (equip_candidates (collect_candidates (collect_stats corpus_q))))
   /\ ~ In (s2l "QGA") (equip_vocab (extract_vocab corpus_q)))
  /\ equip_score (collect_stats corpus_q) (s2l "QGA")
     <= equip_score (collect_stats corpus_q) (s2l "QAA").
Proof.
  exact (let H1 := proj1 (mem_In _ _) q_kept in
         let H2 := proj1 (mem_In _ _) q_cand in
         let H3 := proj1 (mem_false_not_In _ _) q_dropped in
         conj (conj H1 (conj H2 H3))
              (equip_vocab_top_scores corpus_q (s2l "QAA") (s2l "QGA") H1 H2 H3)).
Defined.

(** Extra (extract_vocab): each of the five output vocabularies is sorted in
    Python's string order and has no duplicates. *)
Theorem extract_vocab_sorted (corpus : list raw_record) :
  Forall (fun l => Sorted (fun a b => str_leb a b = true) l /\ NoDup l)
    (let v := extract_vocab corpus in
     [equip_vocab v; subcomp_vocab v; point_func_vocab v; io_type_vocab v; vendor_vocab v]).
Proof.
  unfold extract_vocab; cbv zeta;
    cbn [equip_vocab subcomp_vocab point_func_vocab io_type_vocab vendor_vocab].
  destruct (collect_candidates_set (collect_stats corpus) BIo eq_refl) as [_ Hio].
  destruct (collect_candidates_set (collect_stats corpus) BVendor eq_refl) as [_ Hven].
  cbn [cand_set] in Hio, Hven.
  repeat constructor; try apply sorted_strs_sorted;
    eapply Permutation_NoDup; try (symmetry; apply sorted_strs_perm);
    first [exact Hio | exact Hven | apply NoDup_nodup].
Qed.

(* ----------------------------------------------------------------- *)
(** *** Tokenizer: re-tokenizing the tokens *)

Lemma delim_split_no_delim (s cur : str) :
  forallb not_delim s = true -> delim_split_aux cur false s = [rev cur ++ s].
Proof.
  revert cur; induction s as [|c s IH]; intros cur Hs; cbn [delim_split_aux].
  - rewrite app_nil_r; reflexivity.
  - cbn [forallb] in Hs; apply andb_true_iff in Hs; destruct Hs as [Hc Hs].
    unfold not_delim in Hc; destruct (is_delim c); [discriminate|].
    rewrite (IH (c :: cur) Hs); cbn [rev]; rewrite <- app_assoc; reflexivity.
Qed.

Lemma findall_run (k : ascii -> bool) (s run : str) :
  (k = is_letter \/ k = is_digit) -> run <> [] ->
  forallb k run = true -> forallb k s = true -> findall_aux run s = [rev run ++ s].
Proof.
  intros Hk; revert run; induction s as [|c s IH]; intros run Hne Hrun Hs.
  - destruct run as [|r rs]; [congruence|]; cbn [findall_aux]; rewrite app_nil_r; reflexivity.
  - destruct run as [|r rs]; [congruence|].
    cbn [forallb] in Hrun, Hs; apply andb_true_iff in Hrun, Hs.
    destruct Hrun as [Hr Hrs], Hs as [Hc Hs]; cbn [findall_aux].
    assert (E : same_run_class r c = true)
      by (unfold same_run_class; destruct Hk as [->| ->]; rewrite Hr, Hc; auto using orb_true_r).
    rewrite E, (IH (c :: r :: rs)); [| discriminate | | exact Hs].
    + cbn [rev]; rewrite <- !app_assoc; reflexivity.
    + cbn [forallb]; rewrite Hc, Hr, Hrs; reflexivity.
Qed.

Lemma findall_homogeneous (tok : str) :
  tok <> [] -> homogeneous tok = true -> findall_aux [] tok = [tok].
Proof.
  intros Hne H; destruct tok as [|c s]; [congruence|].
  unfold homogeneous in H; apply orb_true_iff in H; destruct H as [H|H].
  - apply orb_true_iff in H; destruct H as [H|H];
      pose proof H as H'; cbn [forallb] in H'; apply andb_true_iff in H'; destruct H' as [Hc Hs];
      cbn [findall_aux]; unfold is_alnum; rewrite Hc; rewrite ?orb_true_r; cbn [orb].
    + apply (findall_run is_letter s [c]); [auto | discriminate | cbn; rewrite Hc; reflexivity | exact Hs].
    + apply (findall_run is_digit s [c]); [auto | discriminate | cbn; rewrite Hc; reflexivity | exact Hs].
  - destruct s; [|discriminate]; cbn [findall_aux]; destruct (is_alnum c); reflexivity.
Qed.

Lemma tokenize_token_self (label tok : str) :
  In tok (tokenize label) -> tokenize tok = [tok].
Proof.
  intros H.
  assert (Hnb : nonblank tok = true).
  { unfold tokenize, split_alpha_num in H; cbv zeta in H.
    apply in_flat_map in H; destruct H as [f [_ Htok]]; apply filter_In in Htok; apply Htok. }
  assert (Hne : tok <> []) by (intros ->; discriminate).
  pose proof (tokenize_homogeneous _ _ H) as Hh.
  destruct (In_tokenize _ _ H) as [f [Hf Hp]].
  assert (Hnd : forallb not_delim tok = true).
  { apply forallb_forall; intros c Hc; unfold not_delim.
    destruct (findall_aux_parts f [] tok Hp) as [_ Hch].
    destruct (Hch c Hc) as [[]|Hcf]; rewrite (In_delim_split_no_delim _ _ _ Hf Hcf); reflexivity. }
  unfold tokenize, delim_split; cbv zeta.
  rewrite (delim_split_no_delim tok [] Hnd); cbn [rev app filter]; rewrite Hnb.
  cbn [flat_map]; unfold split_alpha_num, findall_alpha_num.
  rewrite (findall_homogeneous tok Hne Hh); cbn [filter]; rewrite Hnb; reflexivity.
Qed.

Lemma tokenize_join_underscore (l : list str) :
  tokenize (join_underscore l) = flat_map tokenize l.
Proof.
  induction l as [|t [|t' ts] IH]; [reflexivity | cbn; rewrite app_nil_r; reflexivity|].
  change (join_underscore (t :: t' :: ts)) with (t ++ "_"%char :: join_underscore (t' :: ts)).
  rewrite tokenize_sep by reflexivity; rewrite IH; reflexivity.
Qed.

(** Extra (tokenizer): every token produced by [tokenize] is a fixed point:
    tokenizing a token again gives back exactly that one token. *)
Theorem tokenize_tokens_fixed (label tok : str) :
  In tok (tokenize label) -> tokenize tok = [tok].
Proof. apply tokenize_token_self. Qed.

Lemma tokenize_tokens_fixed_witness :
  In (s2l "SAT") (tokenize (s2l "AHU-03.SAT_AI")) /\ tokenize (s2l "SAT") = [s2l "SAT"].
Proof.
  assert (H : In (s2l "SAT") (tokenize (s2l "AHU-03.SAT_AI"))) by (apply mem_In; vm_compute; reflexivity).
  exact (conj H (tokenize_tokens_fixed (s2l "AHU-03.SAT_AI") (s2l "SAT") H)).
Defined.

(** Extra (tokenizer): joining the tokens of a label with underscores and
    tokenizing the result gives back the same tokens. *)
Theorem tokenize_join_roundtrip (label : str) :
  tokenize (join_underscore (tokenize label)) = tokenize label.
Proof.
  rewrite tokenize_join_underscore.
  assert (H : forall l, (forall x, In x l -> tokenize x = [x]) -> flat_map tokenize l = l).
  { induction l as [|x l IH]; intros Hl; [reflexivity|].
    cbn [flat_map]; rewrite (Hl x (or_introl eq_refl)), IH; [reflexivity|].
    intros y Hy; apply Hl; right; exact Hy. }
  apply H; intros x Hx; apply (tokenize_token_self label x Hx).
Qed.

(* ----------------------------------------------------------------- *)
(** *** Vocabulary generation: the seed lists *)

Lemma likely_point_func_cases (t : str) (st : corpus_stats) :
  likely_point_func t st = true ->
  mem t SEED_POINT_FUNC = true \/ pf_keyword t = true \/ day_night t = true.
Proof.
  unfold likely_point_func, pf_keyword, day_night.
  destruct (mem t SEED_POINT_FUNC); [auto|]; cbn [andb].
  destruct (negb _); [discriminate|].
  destruct (existsb _ _); [auto|]; destruct (mem _ _); auto.
Qed.

Lemma likely_subcomponent_cases (t : str) (st : corpus_stats) :
  likely_subcomponent t st = true -> mem t SEED_SUBCOMP = true \/ measurement_like t = true.
Proof.
  unfold likely_subcomponent, measurement_like.
  destruct (mem t SEED_SUBCOMP); [auto|]; cbn [andb].
  destruct (negb _); [discriminate|].
  destruct (existsb _ _); [auto|]; destruct (_ && _); auto.
Qed.

Lemma likely_point_func_seed (t : str) (st : corpus_stats) :
  mem t SEED_POINT_FUNC = true -> 0 < counter_get (token_counter st) t ->
  likely_point_func t st = true.
Proof.
  intros Hs Hc; unfold likely_point_func; rewrite Hs; apply Nat.ltb_lt in Hc; rewrite Hc; reflexivity.
Qed.

Lemma likely_subcomponent_seed (t : str) (st : corpus_stats) :
  mem t SEED_SUBCOMP = true -> 0 < counter_get (token_counter st) t ->
  likely_subcomponent t st = true.
Proof.
  intros Hs Hc; unfold likely_subcomponent; rewrite Hs; apply Nat.ltb_lt in Hc; rewrite Hc; reflexivity.
Qed.

Lemma likely_equip_seed (t : str) (st : corpus_stats) :
  mem t SEED_EQUIP = true -> 0 < counter_get (token_counter st) t ->
  likely_equip t st = true.
Proof.
  intros Hs Hc; unfold likely_equip; rewrite Hs; apply Nat.ltb_lt in Hc; rewrite Hc; reflexivity.
Qed.

(** The equipment seeds are claimed by no earlier step of the cascade. *)
Lemma seed_equip_classes :
  forallb (fun t => negb (is_io_type t) && negb (is_vendor t) && negb (mem t SEED_POINT_FUNC)
                    && negb (pf_keyword t) && negb (day_night t)
                    && negb (mem t SEED_SUBCOMP) && negb (measurement_like t)) SEED_EQUIP = true.
Proof. vm_compute; reflexivity. Qed.

(** The point-function seeds are neither IO types nor vendor tags. *)
Lemma seed_point_func_classes :
  forallb (fun t => negb (is_io_type t) && negb (is_vendor t)) SEED_POINT_FUNC = true.
Proof. vm_compute; reflexivity. Qed.

(** The subcomponent seeds other than STATIC are never point functions. *)
Lemma seed_subcomp_classes :
  forallb (fun t => negb (is_io_type t) && negb (is_vendor t) && negb (mem t SEED_POINT_FUNC)
                    && negb (pf_keyword t) && negb (day_night t))
    (filter (fun t => negb (str_eqb t (s2l "STATIC"))) SEED_SUBCOMP) = true.
Proof. vm_compute; reflexivity. Qed.

(** STATIC is a subcomponent seed that starts with the keyword STAT. *)
Lemma static_classes :
  is_io_type (s2l "STATIC") = false /\ is_vendor (s2l "STATIC") = false
  /\ mem (s2l "STATIC") SEED_POINT_FUNC = false /\ pf_keyword (s2l "STATIC") = true
  /\ mem (s2l "STATIC") SEED_SUBCOMP = true.
Proof. vm_compute; repeat split. Qed.

Lemma negb_true (b : bool) : negb b = true -> b = false.
Proof. destruct b; easy. Qed.

Ltac split_bools H :=
  repeat match type of H with
         | _ && _ = true => apply andb_true_iff in H; destruct H as [H ?]
         end.

(** Extra (extract_vocab): an equipment seed (AHU, VAV, FCU, ...) is an
    equipment candidate exactly when it occurs in the corpus, whatever its
    frequency, building support or numeric successions. *)
Theorem seed_equip_candidate (corpus : list raw_record) (t : str) :
  In t SEED_EQUIP ->
  (In t (map fst (equip_candidates (collect_candidates (collect_stats corpus))))
   <-> In t (corpus_tokens corpus)).
Proof.
  intros Hs; set (st := collect_stats corpus).
  destruct (collect_candidates_dict st BEquip eq_refl (token_counter_NoDup corpus)) as [Hd _].
  cbn [cand_dict] in Hd; split.
  - intros H; apply in_map_iff in H; destruct H as [[k s] [Hk H]]; cbn [fst] in Hk; subst k.
    apply Hd in H; apply token_counter_keys_iff, H.
  - intros Ho.
    pose proof (proj1 (forallb_forall _ _) seed_equip_classes t Hs) as Hc; cbv beta in Hc.
    split_bools Hc; apply negb_true in Hc, H, H0, H1, H2, H3, H4.
    pose proof (token_counter_get_pos corpus t Ho) as Hpos.
    assert (Hb : candidate_bucket t st = Some BEquip).
    { apply (proj2 (candidate_bucket_iff t st)); repeat split; auto.
      - destruct (likely_point_func t st) eqn:E; [|reflexivity].
        destruct (likely_point_func_cases t st E) as [E'|[E'|E']]; congruence.
      - destruct (likely_subcomponent t st) eqn:E; [|reflexivity].
        destruct (likely_subcomponent_cases t st E) as [E'|E']; congruence.
      - apply likely_equip_seed; [apply mem_In, Hs | exact Hpos]. }
    apply in_map_iff; exists (t, cand_entry st BEquip t (counter_get (token_counter st) t)).
    split; [reflexivity|]; apply Hd; repeat split; [apply token_counter_keys_iff, Ho | exact Hb].
Qed.

Lemma seed_equip_candidate_witness :
  In (s2l "AHU") SEED_EQUIP
  /\ (In (s2l "AHU") (map fst (equip_candidates (collect_candidates (collect_stats corpus12))))
      <-> In (s2l "AHU") (corpus_tokens corpus12)).
Proof.
  assert (H : In (s2l "AHU") SEED_EQUIP) by (apply mem_In; vm_compute; reflexivity).
  exact (conj H (seed_equip_candidate corpus12 (s2l "AHU") H)).
Defined.

(** Extra (extract_vocab): a point-function seed (CMD, STATUS, RUN, ...)
    that occurs in the corpus is in point_func_vocab exactly when its
    frequency plus its number of buildings is at least 5; the global
    thresholds play no part. *)
Theorem seed_point_func_vocab (corpus : list raw_record) (t : str) :
  In t SEED_POINT_FUNC -> In t (corpus_tokens corpus) ->
  (In t (point_func_vocab (extract_vocab corpus))
   <-> MIN_POINTFUNC_SCORE
       <= counter_get (token_counter (collect_stats corpus)) t
          + List.length (set_map_get (token_buildings (collect_stats corpus)) t)).
Proof.
  intros Hs Ho.
  pose proof (proj1 (forallb_forall _ _) seed_point_func_classes t Hs) as Hc; cbv beta in Hc.
  split_bools Hc; apply negb_true in Hc, H.
  assert (Hb : candidate_bucket t (collect_stats corpus) = Some BPointFunc).
  { apply (proj1 (proj2 (proj2 (candidate_bucket_iff t _)))); repeat split; auto.
    apply likely_point_func_seed; [apply mem_In, Hs | apply token_counter_get_pos, Ho]. }
  unfold extract_vocab; cbv zeta; cbn [point_func_vocab]; rewrite sorted_strs_In, py_set_In.
  pose proof (dict_vocab_iff (collect_stats corpus) BPointFunc
                (fun kv => MIN_POINTFUNC_SCORE <=? score_pointfunc (snd kv)) t eq_refl
                (token_counter_NoDup corpus)) as Hv; cbn [cand_dict] in Hv.
  rewrite Hv, token_counter_keys_iff, Hb.
  cbn [snd cand_entry score_pointfunc cs_freq cs_buildings]; rewrite Nat.leb_le; tauto.
Qed.

Lemma seed_point_func_vocab_witness :
  (In (s2l "CMD") SEED_POINT_FUNC /\ In (s2l "CMD") (corpus_tokens corpus12))
  /\ (In (s2l "CMD") (point_func_vocab (extract_vocab corpus12))
      <-> MIN_POINTFUNC_SCORE
          <= counter_get (token_counter (collect_stats corpus12)) (s2l "CMD")
             + List.length (set_map_get (token_buildings (collect_stats corpus12)) (s2l "CMD"))).
Proof.
  assert (H1 : In (s2l "CMD") SEED_POINT_FUNC) by (apply mem_In; vm_compute; reflexivity).
  assert (H2 : In (s2l "CMD") (corpus_tokens corpus12)) by (apply mem_In; vm_compute; reflexivity).
  exact (conj (conj H1 H2) (seed_point_func_vocab corpus12 (s2l "CMD") H1 H2)).
Defined.

(** Extra (extract_vocab): a subcomponent seed other than STATIC (SAT,
    TEMP, FLOW, ...) that occurs in the corpus is in subcomp_vocab exactly
    when its frequency plus twice its number of buildings is at least 15. *)
Theorem seed_subcomp_vocab (corpus : list raw_record) (t : str) :
  In t SEED_SUBCOMP -> t <> s2l "STATIC" -> In t (corpus_tokens corpus) ->
  (In t (subcomp_vocab (extract_vocab corpus))
   <-> MIN_SUBCOMP_SCORE
       <= counter_get (token_counter (collect_stats corpus)) t
          + 2 * List.length (set_map_get (token_buildings (collect_stats corpus)) t)).
Proof.
  intros Hs Hns Ho; set (st := collect_stats corpus).
  assert (Hf : In t (filter (fun t => negb (str_eqb t (s2l "STATIC"))) SEED_SUBCOMP)).
  { apply filter_In; split; [exact Hs|].
    destruct (str_eqb t (s2l "STATIC")) eqn:E; [apply str_eqb_true in E; contradiction | reflexivity]. }
  pose proof (proj1 (forallb_forall _ _) seed_subcomp_classes t Hf) as Hc; cbv beta in Hc.
  split_bools Hc; apply negb_true in Hc, H, H0, H1, H2.
  assert (Hb : candidate_bucket t st = Some BSubcomp).
  { apply (proj1 (proj2 (proj2 (proj2 (candidate_bucket_iff t _))))); repeat split; auto.
    - destruct (likely_point_func t st) eqn:E; [|reflexivity].
      destruct (likely_point_func_cases t st E) as [E'|[E'|E']]; congruence.
    - apply likely_subcomponent_seed; [apply mem_In, Hs | apply token_counter_get_pos, Ho]. }
  unfold extract_vocab; cbv zeta; cbn [subcomp_vocab]; rewrite sorted_strs_In, py_set_In.
  pose proof (dict_vocab_iff st BSubcomp
                (fun kv => MIN_SUBCOMP_SCORE <=? score_subcomp (snd kv)) t eq_refl
                (token_counter_NoDup corpus)) as Hv; cbn [cand_dict] in Hv.
  fold st; rewrite Hv; unfold st; rewrite token_counter_keys_iff; fold st; rewrite Hb.
  cbn [snd cand_entry score_subcomp cs_freq cs_buildings]; rewrite Nat.leb_le; tauto.
Qed.

Lemma seed_subcomp_vocab_witness :
  (In (s2l "SAT") SEED_SUBCOMP /\ s2l "SAT" <> s2l "STATIC" /\ In (s2l "SAT") (corpus_tokens corpus12))
  /\ (In (s2l "SAT") (subcomp_vocab (extract_vocab corpus12))
      <-> MIN_SUBCOMP_SCORE
          <= counter_get (token_counter (collect_stats corpus12)) (s2l "SAT")
             + 2 * List.length (set_map_get (token_buildings (collect_stats corpus12)) (s2l "SAT"))).
Proof.
  assert (H1 : In (s2l "SAT") SEED_SUBCOMP) by (apply mem_In; vm_compute; reflexivity).
  assert (H2 : s2l "SAT" <> s2l "STATIC") by (intros H; vm_compute in H; discriminate H).
  assert (H3 : In (s2l "SAT") (corpus_tokens corpus12)) by (apply mem_In; vm_compute; reflexivity).
  exact (conj (conj H1 (conj H2 H3)) (seed_subcomp_vocab corpus12 (s2l "SAT") H1 H2 H3)).
Defined.

(** Extra (extract_vocab): the subcomponent seed STATIC, when it occurs, is
    taken as a point function (it starts with STAT) exactly when it passes
    the global thresholds, and it is in subcomp_vocab only when it fails
    them and its subcomponent score is at least 15. *)
Theorem static_classification (corpus : list raw_record) :
  In (s2l "STATIC") (corpus_tokens corpus) ->
  (In (s2l "STATIC") (point_func_vocab (extract_vocab corpus))
   <-> passes_global_thresholds (s2l "STATIC") (collect_stats corpus) = true)
  /\ (In (s2l "STATIC") (subcomp_vocab (extract_vocab corpus))
      <-> passes_global_thresholds (s2l "STATIC") (collect_stats corpus) = false
          /\ MIN_SUBCOMP_SCORE
             <= counter_get (token_counter (collect_stats corpus)) (s2l "STATIC")
                + 2 * List.length (set_map_get (token_buildings (collect_stats corpus)) (s2l "STATIC"))).
Proof.
  intros Ho; set (st := collect_stats corpus); set (t := s2l "STATIC").
  destruct static_classes as (Hio & Hven & Hpfs & Hkw & Hsc).
  pose proof (token_counter_get_pos corpus t Ho) as Hpos; fold st in Hpos.
  assert (Hpf : likely_point_func t st = passes_global_thresholds t st).
  { unfold likely_point_func; fold t in Hpfs; rewrite Hpfs; cbn [andb].
    destruct (passes_global_thresholds t st); [exact Hkw | reflexivity]. }
  unfold extract_vocab; cbv zeta; cbn [point_func_vocab subcomp_vocab];
    rewrite !sorted_strs_In, !py_set_In.
  pose proof (dict_vocab_iff st BPointFunc
                (fun kv => MIN_POINTFUNC_SCORE <=? score_pointfunc (snd kv)) t eq_refl
                (token_counter_NoDup corpus)) as Hv1; cbn [cand_dict] in Hv1.
  pose proof (dict_vocab_iff st BSubcomp
                (fun kv => MIN_SUBCOMP_SCORE <=? score_subcomp (snd kv)) t eq_refl
                (token_counter_NoDup corpus)) as Hv2; cbn [cand_dict] in Hv2.
  fold st; rewrite Hv1, Hv2; unfold st; rewrite !token_counter_keys_iff; fold st.
  cbn [snd cand_entry score_pointfunc score_subcomp cs_freq cs_buildings]; rewrite !Nat.leb_le.
  rewrite (proj1 (proj2 (proj2 (candidate_bucket_iff t st)))),
          (proj1 (proj2 (proj2 (proj2 (candidate_bucket_iff t st))))), Hpf.
  assert (Hsub : likely_subcomponent t st = true) by (apply likely_subcomponent_seed; assumption).
  rewrite Hsub.
  destruct (passes_global_thresholds t st) eqn:Ep.
  - unfold passes_global_thresholds in Ep; apply andb_true_iff in Ep; destruct Ep as [E1 E2].
    apply Nat.leb_le in E1, E2; unfold MIN_GLOBAL_FREQ, MIN_BUILDINGS, MIN_POINTFUNC_SCORE in *.
    split; split.
    + tauto.
    + intros _; repeat split; try exact Ho; try assumption.
      unfold score_pointfunc, cand_entry; cbn [cs_freq cs_buildings]; lia.
    + intros (_ & (_ & _ & E & _) & _); discriminate.
    + intros [E _]; discriminate.
  - split; split.
    + intros (_ & (_ & _ & E) & _); discriminate.
    + discriminate.
    + intros (_ & _ & Hs); split; [reflexivity | exact Hs].
    + intros [_ Hs]; repeat split; try exact Ho; try assumption; exact Hs.
Qed.

Lemma static_classification_witness :
  In (s2l "STATIC") (corpus_tokens corpus_static)
  /\ ((In (s2l "STATIC") (point_func_vocab (extract_vocab corpus_static))
       <-> passes_global_thresholds (s2l "STATIC") (collect_stats corpus_static) = true)
      /\ (In (s2l "STATIC") (subcomp_vocab (extract_vocab corpus_static))
          <-> passes_global_thresholds (s2l "STATIC") (collect_stats corpus_static) = false
              /\ MIN_SUBCOMP_SCORE
                 <= counter_get (token_counter (collect_stats corpus_static)) (s2l "STATIC")
                    + 2 * List.length (set_map_get (token_buildings (collect_stats corpus_static))
                                                   (s2l "STATIC")))).
Proof.
  assert (H : In (s2l "STATIC") (corpus_tokens corpus_static)) by (apply mem_In; vm_compute; reflexivity).
  exact (conj H (static_classification corpus_static H)).
Defined.


(* ----------------------------------------------------------------- *)
(** *** Vocabulary generation: the statistics in the output *)

Lemma has_tokens_iff (r : raw_record) : has_tokens r = true <-> tokenize (point_label r) <> [].
Proof. unfold has_tokens; destruct (tokenize (point_label r)); split; congruence. Qed.

(** Extra (extract_vocab): stats.num_buildings is the number of distinct
    building ids among the records whose label yields at least one token. *)
Theorem num_buildings_spec (corpus : list raw_record) :
  num_buildings (extract_vocab corpus)
  = List.length (py_set (map building_id (filter has_tokens corpus))).
Proof.
  unfold extract_vocab; cbv zeta; cbn [num_buildings]; rewrite <- (length_map fst).
  unfold collect_stats; apply NoDup_same_length.
  - apply (stats_fold_keys corpus stats_init (s2l "") (s2l "")); constructor.
  - apply NoDup_nodup.
  - intros b; rewrite (proj1 (proj2 (proj2 (stats_fold_keys corpus stats_init (s2l "") b)))).
    rewrite py_set_In; cbn [per_building_counter stats_init map In]; split.
    + intros [[]|(r & Hr & Hne & Hb)]; apply in_map_iff; exists r; split; [exact Hb|].
      apply filter_In; split; [exact Hr | apply has_tokens_iff, Hne].
    + intros Hb; apply in_map_iff in Hb; destruct Hb as (r & Hb & Hr).
      apply filter_In in Hr; destruct Hr as [Hr Hne].
      right; exists r; repeat split; [exact Hr | apply has_tokens_iff, Hne | exact Hb].
Qed.

(** Extra (extract_vocab): the frequency dict gives every token its number
    of occurrences among the case-folded tokens of the corpus, its keys are
    exactly those tokens, and stats.num_tokens is the number of distinct
    such tokens. *)
Theorem frequency_spec (corpus : list raw_record) :
  (forall t, counter_get (frequency (extract_vocab corpus)) t
             = count_occ (list_eq_dec ascii_dec) (corpus_tokens corpus) t)
  /\ (forall t, In t (map fst (frequency (extract_vocab corpus))) <-> In t (corpus_tokens corpus))
  /\ num_tokens (extract_vocab corpus) = List.length (py_set (corpus_tokens corpus)).
Proof.
  unfold extract_vocab; cbv zeta; cbn [frequency num_tokens]; split; [|split].
  - intros t; apply token_counter_get.
  - intros t; apply token_counter_keys_iff.
  - rewrite <- (length_map fst); apply NoDup_same_length.
    + apply token_counter_NoDup.
    + apply NoDup_nodup.
    + intros t; rewrite py_set_In; apply token_counter_keys_iff.
Qed.
